(** * go-nakadi: the event type API (events.go)

    A shallow embedding of [events.go]: the option handling of
    [NewEventAPI], the five operations of [EventAPI] and the URL helpers,
    followed by the properties of the specification that concern them.

    Pointers are locations of a heap, so that copies and sharing are
    visible.  The operations are programs that issue the HTTP helper calls
    of the client ([httpGET], [httpPOST], [httpPUT], [httpDELETE]); what a
    helper answers is supplied by a handler, so that every statement about
    an operation holds for every behaviour of the helpers. *)

From Stdlib Require Import ZArith.
From stdpp Require Import gmap strings list.

Open Scope string_scope.
Open Scope Z_scope.

(** ** Basic types *)

(** [time.Duration] is a 64-bit count of nanoseconds.  The code only
    compares durations with zero and copies them. *)
Definition Duration : Type := Z.

(** [time.Time], kept as an opaque instant. *)
Definition Time : Type := Z.

(** Pointers are heap locations; [nil] is [None] of [option loc]. *)
Abbreviation loc := positive.

(** ** github.com/pkg/errors *)

Module errors.

(** An error value is a message, possibly wrapped with context. *)
Inductive error : Type :=
| New (msg : string)
| Wrap (err : error) (msg : string).

(** [errors.Errorf] with the format already expanded. *)
Definition Errorf (msg : string) : error := New msg.

(** The [Error()] method: a wrapper prints its message, a colon and the
    message of its cause. *)
Fixpoint Error (e : error) : string :=
  match e with
  | New msg => msg
  | Wrap err msg => msg +:+ ": " +:+ Error err
  end.

(** The context an error carries outermost: the message given to
    [Wrap], or the whole message of an unwrapped error. *)
Definition context (e : error) : string :=
  match e with
  | New msg => msg
  | Wrap _ msg => msg
  end.

End errors.

Abbreviation error := errors.error.

(** ** net/http *)

Module http.

Definition StatusOK : Z := 200.
Definition StatusCreated : Z := 201.

(** The part of [http.Response] the code reads: the status code and the
    body, a stream of bytes. *)
Record Response : Type := mkResponse {
  StatusCode : Z;
  Body : string
}.

End http.

(** ** github.com/cenkalti/backoff *)

Module backoff.

(** The fields of [backoff.ExponentialBackOff] that [NewEventAPI]
    assigns.  The remaining fields (randomization factor, multiplier,
    clock and the private counters) keep what
    [backoff.NewExponentialBackOff] put there. *)
Record ExponentialBackOff : Type := mkExponentialBackOff {
  InitialInterval : Duration;
  MaxInterval : Duration;
  MaxElapsedTime : Duration
}.

(** The two implementations of the [backoff.BackOff] interface that
    [NewEventAPI] stores in an [EventAPI]. *)
Inductive BackOff : Type :=
| StopBackOff
| Exponential (back : ExponentialBackOff).

End backoff.

(** ** The data model of events.go *)

Record EventTypeSchema : Type := mkEventTypeSchema {
  Version : string;
  Type_ : string;
  Schema_ : string;
  SchemaCreatedAt : Time
}.

Record EventTypeStatistics : Type := mkEventTypeStatistics {
  MessagesPerMinute : Z;
  MessageSize : Z;
  ReadParallelism : Z;
  WriteParallelism : Z
}.

Record EventTypeOptions : Type := mkEventTypeOptions {
  RetentionTime : Z
}.

(** Slices are [option (list _)]: [None] is the nil slice, [Some []] the
    empty one.  Pointer fields are [option]s of the value pointed to. *)
Record EventType : Type := mkEventType {
  Name : string;
  OwningApplication : string;
  Category : string;
  EnrichmentStrategies : option (list string);
  PartitionStrategy : string;
  CompatibilityMode : string;
  Schema : option EventTypeSchema;
  PartitionKeyFields : option (list string);
  DefaultStatistics : option EventTypeStatistics;
  Options : option EventTypeOptions;
  CreatedAt : Time;
  UpdatedAt : Time
}.

(** The zero value [EventType{}]. *)
Definition zeroEventType : EventType :=
  {| Name := ""; OwningApplication := ""; Category := "";
     EnrichmentStrategies := None; PartitionStrategy := "";
     CompatibilityMode := ""; Schema := None; PartitionKeyFields := None;
     DefaultStatistics := None; Options := None;
     CreatedAt := 0; UpdatedAt := 0 |}.

Record EventOptions : Type := mkEventOptions {
  Retry : bool;
  InitialRetryInterval : Duration;
  MaxRetryInterval : Duration;
  MaxElapsedTime : Duration
}.

(** The zero value of [EventOptions] ([var copyOptions EventOptions]). *)
Definition zeroEventOptions : EventOptions :=
  {| Retry := false; InitialRetryInterval := 0;
     MaxRetryInterval := 0; MaxElapsedTime := 0 |}.

(** ** The heap *)

(** The objects the code reaches through pointers. *)
Inductive object : Type :=
| ObjEventOptions (o : EventOptions)
| ObjBackOff (b : backoff.BackOff).

Abbreviation heap := (gmap loc object).

(** Allocation returns an address that is not in use. *)
Definition alloc (v : object) (h : heap) : loc * heap :=
  let l := fresh (dom h) in (l, <[l := v]> h).

(** [*o] for [o : *EventOptions].  A pointer of the program always
    points to an object of its type; any other lookup reads as the zero
    value. *)
Definition loadOptions (h : heap) (l : loc) : EventOptions :=
  match h !! l with
  | Some (ObjEventOptions o) => o
  | _ => zeroEventOptions
  end.

(** Modelled from the spec: the [Client] struct, which is declared in
    client.go.  events.go reads its [nakadiURL] field, the base URL of the
    service, and calls its four HTTP helpers (below).  The operations are
    given an [EventAPI] and a client that are not nil. *)
Record Client : Type := mkClient {
  nakadiURL : string
}.

(** The [EventAPI] struct behind a receiver that is not nil, with the
    client its [client] pointer points to.  [NewEventAPI] stores the
    pointer it is given, nil or not; a nil receiver and a nil client are
    in the section on pointers that may be nil, below. *)
Record EventAPI : Type := mkEventAPI {
  client : Client;
  backOff : loc
}.

(** Modelled from the spec: the error body of the service, a JSON object
    with a [detail] string, which client.go declares as [problemJSON];
    events.go reads its [Detail] field. *)
Record problemJSON : Type := mkProblemJSON {
  Detail : string
}.

(** ** The HTTP helpers of the client, as calls *)

(** [[]*EventType]: a slice, possibly nil, of pointers, possibly nil. *)
Abbreviation EventTypes := (option (list (option EventType))).

(** The [body interface{}] argument of [httpGET] is a pointer to the
    variable the helper decodes into.  It is given here with the value the
    variable holds when the call is made. *)
Inductive getBody : Type :=
| EventTypesPtr (eventTypes : EventTypes)
| EventTypePtr (eventType : EventType).

(** What the variable behind the pointer holds. *)
Definition pointee (body : getBody) : Type :=
  match body with
  | EventTypesPtr _ => EventTypes
  | EventTypePtr _ => EventType
  end.

(** The calls events.go makes on its collaborators: the four helpers of
    client.go, each with the arguments of its Go signature, and
    [response.Body.Close()]. *)
Inductive call : Type :=
| httpGET (backOff : loc) (url : string) (body : getBody) (msg : string)
| httpPOST (backOff : loc) (url : string) (body : option EventType)
| httpPUT (backOff : loc) (url : string) (body : option EventType)
| httpDELETE (backOff : loc) (url : string) (msg : string)
| bodyClose (response : http.Response).

(** What a call gives back.  [httpGET] returns an error and leaves a value
    in the variable behind [body]; [httpPOST] and [httpPUT] return a
    response or an error (events.go looks at the error first, and at the
    response only without one); [httpDELETE] returns an error.  The Go
    signature of [httpPOST] and [httpPUT] also allows a nil response with
    a nil error: see [rawResult] in the section on pointers that may be
    nil. *)
Definition result (c : call) : Type :=
  match c with
  | httpGET _ _ body _ => (pointee body * option error)%type
  | httpPOST _ _ _ => (http.Response + error)%type
  | httpPUT _ _ _ => (http.Response + error)%type
  | httpDELETE _ _ _ => option error
  | bodyClose _ => unit
  end.

(** A Go function body: it returns, panics, or makes a call and goes on
    with what the call gave back. *)
Inductive prog (A : Type) : Type :=
| Return (a : A)
| Panic
| Call (c : call) (k : result c -> prog A).

Arguments Return {A} a.
Arguments Panic {A}.
Arguments Call {A} c k.

(** [defer c]: the call [c] is made when the function body [p] is left,
    by return or by panic. *)
Fixpoint defer {A : Type} (c : call) (p : prog A) : prog A :=
  match p with
  | Return a => Call c (fun _ => Return a)
  | Panic => Call c (fun _ => Panic)
  | Call c' k => Call c' (fun r => defer c (k r))
  end.

(** The result of a function body is mapped. *)
Fixpoint pmap {A B : Type} (f : A -> B) (p : prog A) : prog B :=
  match p with
  | Return a => Return (f a)
  | Panic => Panic
  | Call c k => Call c (fun r => pmap f (k r))
  end.

(** A handler answers the calls, in a world of type [W] that it may
    change.  A helper that is called returns. *)
Definition handler (W : Type) : Type := forall c : call, W -> result c * W.

Inductive outcome (A : Type) : Type :=
| Returned (a : A)
| Panicked.

Arguments Returned {A} a.
Arguments Panicked {A}.

(** Running a function body against a handler. *)
Fixpoint run {W A : Type} (h : handler W) (p : prog A) (w : W)
  : outcome A * W :=
  match p with
  | Return a => (Returned a, w)
  | Panic => (Panicked, w)
  | Call c k => let '(r, w') := h c w in run h (k r) w'
  end.

(** The calls a function body makes when run against a handler, in
    order. *)
Fixpoint calls {W A : Type} (h : handler W) (p : prog A) (w : W)
  : list call :=
  match p with
  | Return _ => []
  | Panic => []
  | Call c k => let '(r, w') := h c w in c :: calls h (k r) w'
  end.

(** The backoff object a helper call is handed. *)
Definition backOffOf (c : call) : option loc :=
  match c with
  | httpGET b _ _ _ => Some b
  | httpPOST b _ _ => Some b
  | httpPUT b _ _ => Some b
  | httpDELETE b _ _ => Some b
  | bodyClose _ => None
  end.

(** ** The transport, for the client helpers *)

(** Modelled from the spec: an HTTP request as the transport sees it,
    with its method, its URL and the entity it carries (section 6). *)
Record Request : Type := mkRequest {
  Method : string;
  URL : string;
  Payload : option EventType
}.

(** Modelled from the spec: the world of the client helpers, which are
    in client.go: the heap, and the requests that went over the wire so
    far, one entry for every attempt. *)
Record World : Type := mkWorld {
  objects : heap;
  sent : list Request
}.

(** ** What events.go takes from outside *)

(** The package constants of client.go that [withDefaults] reads, as
    parameters. *)
Class Defaults : Type := {
  defaultInitialRetryInterval : Duration;
  defaultMaxRetryInterval : Duration;
  defaultMaxElapsedTime : Duration
}.

(** encoding/json, as functions of the bytes of a body: the decoded
    value, or the error of the decoder.  [decodeProblem] is
    [json.NewDecoder(response.Body).Decode(&problem)]; [decodeInto] decodes
    into the variable behind a [body] pointer of [httpGET]. *)
Class Json : Type := {
  decodeProblem : string -> problemJSON + error;
  decodeInto : forall body : getBody, string -> pointee body + error
}.

(** The remote side and the backoff package, as parameters of the client
    helpers.  [transport] is what the
    wire gives for a request, after the requests sent before it.
    [exponentialWaits] is the exponential policy: the waits it grants
    before it gives up, which the backoff package computes from the
    intervals of the policy with its clock and its random source. *)
Class Remote : Type := {
  transport : list Request -> Request -> http.Response + error;
  exponentialWaits :
    backoff.ExponentialBackOff -> list Request -> list Duration
}.

(** ** Options *)

(** [func (o *EventOptions) withDefaults() *EventOptions] *)
Definition withDefaults `{Defaults} (o : option loc) (h : heap) : loc * heap :=
  let copyOptions := zeroEventOptions in
  let copyOptions :=
    match o with
    | Some l => loadOptions h l
    | None => copyOptions
    end in
  let copyOptions :=
    if InitialRetryInterval copyOptions =? 0
    then {| Retry := Retry copyOptions;
            InitialRetryInterval := defaultInitialRetryInterval;
            MaxRetryInterval := MaxRetryInterval copyOptions;
            MaxElapsedTime := MaxElapsedTime copyOptions |}
    else copyOptions in
  let copyOptions :=
    if MaxRetryInterval copyOptions =? 0
    then {| Retry := Retry copyOptions;
            InitialRetryInterval := InitialRetryInterval copyOptions;
            MaxRetryInterval := defaultMaxRetryInterval;
            MaxElapsedTime := MaxElapsedTime copyOptions |}
    else copyOptions in
  let copyOptions :=
    if MaxElapsedTime copyOptions =? 0
    then {| Retry := Retry copyOptions;
            InitialRetryInterval := InitialRetryInterval copyOptions;
            MaxRetryInterval := MaxRetryInterval copyOptions;
            MaxElapsedTime := defaultMaxElapsedTime |}
    else copyOptions in
  alloc (ObjEventOptions copyOptions) h.

(** [func NewEventAPI(client *Client, options *EventOptions) *EventAPI].
    A [StopBackOff] is a struct of size zero, and Go may give all
    pointers to such structs one address.  It is put at an address of its
    own here.  A [StopBackOff] has no state, and what is said below on
    two backoff objects being different ones is said of exponential
    ones. *)
Definition NewEventAPI `{Defaults} (client : Client) (options : option loc) (h : heap)
  : EventAPI * heap :=
  let '(options, h) := withDefaults options h in
  let '(backOff, h) :=
    if Retry (loadOptions h options)
    then
      let back :=
        {| backoff.InitialInterval := InitialRetryInterval (loadOptions h options);
           backoff.MaxInterval := MaxRetryInterval (loadOptions h options);
           backoff.MaxElapsedTime := MaxElapsedTime (loadOptions h options) |} in
      alloc (ObjBackOff (backoff.Exponential back)) h
    else alloc (ObjBackOff backoff.StopBackOff) h in
  ({| client := client; backOff := backOff |}, h).

(** ** The operations *)

(** [func (e *EventAPI) eventURL(name string) string] *)
Definition eventURL (e : EventAPI) (name : string) : string :=
  nakadiURL (client e) +:+ "/event-types/" +:+ name.

(** [func (e *EventAPI) eventBaseURL() string] *)
Definition eventBaseURL (e : EventAPI) : string :=
  nakadiURL (client e) +:+ "/event-types".

(** [func (e *EventAPI) List()], returning a slice of pointers to
    [EventType] and an error. *)
Definition List (e : EventAPI) : prog (EventTypes * option error) :=
  let eventTypes : EventTypes := Some [] in
  Call (httpGET (backOff e) (eventBaseURL e) (EventTypesPtr eventTypes)
                "unable to request event types")
       (fun r : EventTypes * option error =>
          let '(eventTypes, err) := r in
          match err with
          | Some err => Return (None, Some err)
          | None => Return (eventTypes, None)
          end).

(** [func (e *EventAPI) Get(name string)], returning a pointer to an
    [EventType] and an error. *)
Definition Get (e : EventAPI) (name : string)
  : prog (option EventType * option error) :=
  let eventType := zeroEventType in
  Call (httpGET (backOff e) (eventURL e name) (EventTypePtr eventType)
                "unable to request event types")
       (fun r : EventType * option error =>
          let '(eventType, err) := r in
          match err with
          | Some err => Return (None, Some err)
          | None => Return (Some eventType, None)
          end).

(** [func (e *EventAPI) Create(eventType *EventType) error] *)
Definition Create `{Json} (e : EventAPI) (eventType : option EventType)
  : prog (option error) :=
  Call (httpPOST (backOff e) (eventBaseURL e) eventType)
       (fun r : http.Response + error =>
          match r with
          | inr err =>
              Return (Some (errors.Wrap err "unable to create event type"))
          | inl response =>
              defer (bodyClose response)
                (if http.StatusCode response =? http.StatusCreated
                 then Return None
                 else
                   match decodeProblem (http.Body response) with
                   | inr err =>
                       Return (Some (errors.Wrap err
                                       "unable to decode response body"))
                   | inl problem =>
                       Return (Some (errors.Errorf
                                       ("unable to create event type: "
                                          +:+ Detail problem)))
                   end)
          end).

(** [func (e *EventAPI) Update(eventType *EventType) error].  The
    argument is dereferenced for its name before anything else: a nil
    pointer panics. *)
Definition Update `{Json} (e : EventAPI) (eventType : option EventType)
  : prog (option error) :=
  match eventType with
  | None => Panic
  | Some pointed =>
      Call (httpPUT (backOff e) (eventURL e (Name pointed)) eventType)
           (fun r : http.Response + error =>
              match r with
              | inr err =>
                  Return (Some (errors.Wrap err
                                  "unable to update event type"))
              | inl response =>
                  defer (bodyClose response)
                    (if http.StatusCode response =? http.StatusOK
                     then Return None
                     else
                       match decodeProblem (http.Body response) with
                       | inr err =>
                           Return (Some (errors.Wrap err
                                           "unable to decode response body"))
                       | inl problem =>
                           Return (Some (errors.Errorf
                                           ("unable to update event type: "
                                              +:+ Detail problem)))
                       end)
              end)
  end.

(** [func (e *EventAPI) Delete(name string) error] *)
Definition Delete (e : EventAPI) (name : string) : prog (option error) :=
  Call (httpDELETE (backOff e) (eventURL e name)
                   "unable to delete event type")
       (fun err : option error => Return err).

(** ** Invocations of the API *)

Inductive invocation : Type :=
| InvokeList
| InvokeGet (name : string)
| InvokeCreate (eventType : option EventType)
| InvokeUpdate (eventType : option EventType)
| InvokeDelete (name : string).

(** What an invocation returns to its caller. *)
Inductive answer : Type :=
| ListAnswer (eventTypes : EventTypes) (err : option error)
| GetAnswer (eventType : option EventType) (err : option error)
| ErrorAnswer (err : option error).

Definition invoke `{Json} (e : EventAPI) (i : invocation) : prog answer :=
  match i with
  | InvokeList => pmap (fun r => ListAnswer (fst r) (snd r)) (List e)
  | InvokeGet name => pmap (fun r => GetAnswer (fst r) (snd r)) (Get e name)
  | InvokeCreate eventType => pmap ErrorAnswer (Create e eventType)
  | InvokeUpdate eventType => pmap ErrorAnswer (Update e eventType)
  | InvokeDelete name => pmap ErrorAnswer (Delete e name)
  end.

(** The error an invocation returned. *)
Definition errorOf (a : answer) : option error :=
  match a with
  | ListAnswer _ err => err
  | GetAnswer _ err => err
  | ErrorAnswer err => err
  end.



(** ** The helpers of the client *)

(** Modelled from the spec: the retry policy of section 4.2, which
    client.go applies through the backoff package (neither is in the
    sources).  A policy grants a number of waits.  A failed attempt is
    tried again after the next wait; once no wait is left the last error
    is returned.  A disabled policy grants no wait. *)
Definition waitsOf `{Remote} (w : World) (b : loc) : list Duration :=
  match objects w !! b with
  | Some (ObjBackOff (backoff.Exponential back)) =>
      exponentialWaits back (sent w)
  | _ => []
  end.

(** Modelled from the spec: a call applies the retry policy around the
    transport round trip (section 4.1; the loop is in client.go and the
    backoff package).  Every attempt is one request on the wire. *)
Fixpoint roundTrips `{Remote} (waits : list Duration) (request : Request)
         (w : World) : (http.Response + error) * World :=
  let r := transport (sent w) request in
  let w := {| objects := objects w; sent := sent w ++ [request] |} in
  match r, waits with
  | inr _, _ :: waits => roundTrips waits request w
  | _, _ => (r, w)
  end.

(** Modelled from the spec: a non-success response is decoded as a
    problem payload and surfaced as an error that carries the context
    message and the detail (sections 4.1, 6 and 7; [httpGET] and
    [httpDELETE] of client.go do this themselves). *)
Definition remoteError `{Json} (response : http.Response) (msg : string)
  : error :=
  match decodeProblem (http.Body response) with
  | inr err => errors.Wrap err "unable to decode response body"
  | inl problem => errors.Errorf (msg +:+ ": " +:+ Detail problem)
  end.

(** What the variable behind a [body] pointer holds at the call. *)
Definition current (body : getBody) : pointee body :=
  match body with
  | EventTypesPtr eventTypes => eventTypes
  | EventTypePtr eventType => eventType
  end.

(** Modelled from the spec: the helper [httpGET] of client.go.  GET on
    the URL under the retry policy; a transport error is wrapped with
    the context message; status 200 is the success code and the body is
    decoded into the variable; any other status is a remote error. *)
Definition clientGET `{Json} `{Remote} (b : loc) (url : string)
           (body : getBody) (msg : string) (w : World)
  : (pointee body * option error) * World :=
  let '(r, w) :=
    roundTrips (waitsOf w b)
               {| Method := "GET"; URL := url; Payload := None |} w in
  match r with
  | inr err => ((current body, Some (errors.Wrap err msg)), w)
  | inl response =>
      if http.StatusCode response =? http.StatusOK
      then
        match decodeInto body (http.Body response) with
        | inl v => ((v, None), w)
        | inr err =>
            ((current body,
              Some (errors.Wrap err "unable to decode response body")), w)
        end
      else ((current body, Some (remoteError response msg)), w)
  end.

(** Modelled from the spec: the helpers [httpPOST] and [httpPUT] of
    client.go.  The request under the retry policy; the response or the
    transport error goes back to the operation. *)
Definition clientSend `{Remote} (method : string) (b : loc) (url : string)
           (body : option EventType) (w : World)
  : (http.Response + error) * World :=
  roundTrips (waitsOf w b)
             {| Method := method; URL := url; Payload := body |} w.

(** Modelled from the spec: the helper [httpDELETE] of client.go.
    DELETE on the URL under the retry policy; 200 and 204 are the
    success codes. *)
Definition clientDELETE `{Json} `{Remote} (b : loc) (url : string)
           (msg : string) (w : World) : option error * World :=
  let '(r, w) :=
    roundTrips (waitsOf w b)
               {| Method := "DELETE"; URL := url; Payload := None |} w in
  match r with
  | inr err => (Some (errors.Wrap err msg), w)
  | inl response =>
      if (http.StatusCode response =? 200)
         || (http.StatusCode response =? 204)
      then (None, w)
      else (Some (remoteError response msg), w)
  end.

(** Modelled from the spec: the client, answering the calls of
    events.go. *)
Definition clientHandler `{Json} `{Remote} : handler World :=
  fun c =>
    match c return World -> result c * World with
    | httpGET b url body msg => clientGET b url body msg
    | httpPOST b url body => clientSend "POST" b url body
    | httpPUT b url body => clientSend "PUT" b url body
    | httpDELETE b url msg => clientDELETE b url msg
    | bodyClose _ => fun w => (tt, w)
    end.

(** ** The operations on pointers that may be nil *)

(** The operations above are given an [EventAPI] whose client is there,
    and a helper that brings back a response or an error.  The Go types
    allow more: the receiver and its client are pointers, and [httpPOST]
    and [httpPUT] return a pair of pointers.  This section has the
    operations once more with these types, and with the panics of the
    nil pointer dereferences. *)

(** The [EventAPI] struct as it is declared: the client is a pointer,
    which [NewEventAPI] stores as it is given, nil or not. *)
Record rawEventAPI : Type := mkRawEventAPI {
  rawClient : option Client;
  rawBackOff : loc
}.


(** [e.client.nakadiURL] for a receiver [e] that may be nil: [None] is
    the nil pointer dereference. *)
Definition rawNakadiURL (e : option rawEventAPI) : option string :=
  match e with
  | None => None
  | Some s =>
      match rawClient s with
      | None => None
      | Some c => Some (nakadiURL c)
      end
  end.

(** [eventURL] and [eventBaseURL] on such a receiver. *)
Definition rawEventURL (e : option rawEventAPI) (name : string)
  : option string :=
  match rawNakadiURL e with
  | None => None
  | Some base => Some (base +:+ "/event-types/" +:+ name)
  end.

Definition rawEventBaseURL (e : option rawEventAPI) : option string :=
  match rawNakadiURL e with
  | None => None
  | Some base => Some (base +:+ "/event-types")
  end.

(** What a call gives back, with the Go types: [httpPOST] and [httpPUT]
    return a response pointer and an error, each of which may be nil. *)
Definition rawResult (c : call) : Type :=
  match c with
  | httpGET _ _ body _ => (pointee body * option error)%type
  | httpPOST _ _ _ => (option http.Response * option error)%type
  | httpPUT _ _ _ => (option http.Response * option error)%type
  | httpDELETE _ _ _ => option error
  | bodyClose _ => unit
  end.

Inductive rawProg (A : Type) : Type :=
| RawReturn (a : A)
| RawPanic
| RawCall (c : call) (k : rawResult c -> rawProg A).

Arguments RawReturn {A} a.
Arguments RawPanic {A}.
Arguments RawCall {A} c k.

Fixpoint rawDefer {A : Type} (c : call) (p : rawProg A) : rawProg A :=
  match p with
  | RawReturn a => RawCall c (fun _ => RawReturn a)
  | RawPanic => RawCall c (fun _ => RawPanic)
  | RawCall c' k => RawCall c' (fun r => rawDefer c (k r))
  end.

Fixpoint rawMap {A B : Type} (f : A -> B) (p : rawProg A) : rawProg B :=
  match p with
  | RawReturn a => RawReturn (f a)
  | RawPanic => RawPanic
  | RawCall c k => RawCall c (fun r => rawMap f (k r))
  end.

Definition rawHandler (W : Type) : Type :=
  forall c : call, W -> rawResult c * W.

Fixpoint rawRun {W A : Type} (h : rawHandler W) (p : rawProg A) (w : W)
  : outcome A * W :=
  match p with
  | RawReturn a => (Returned a, w)
  | RawPanic => (Panicked, w)
  | RawCall c k => let '(r, w') := h c w in rawRun h (k r) w'
  end.

(** [List] on a receiver that may be nil.  The arguments of the helper
    call are evaluated first: [e.client] and [e.backOff] panic on a nil
    receiver, [e.eventBaseURL()] on a nil client. *)
Definition rawList (e : option rawEventAPI)
  : rawProg (EventTypes * option error) :=
  match e, rawEventBaseURL e with
  | Some s, Some url =>
      let eventTypes : EventTypes := Some [] in
      RawCall (httpGET (rawBackOff s) url (EventTypesPtr eventTypes)
                       "unable to request event types")
              (fun r : EventTypes * option error =>
                 let '(eventTypes, err) := r in
                 match err with
                 | Some err => RawReturn (None, Some err)
                 | None => RawReturn (eventTypes, None)
                 end)
  | _, _ => RawPanic
  end.

(** [Get] on a receiver that may be nil. *)
Definition rawGet (e : option rawEventAPI) (name : string)
  : rawProg (option EventType * option error) :=
  match e, rawEventURL e name with
  | Some s, Some url =>
      let eventType := zeroEventType in
      RawCall (httpGET (rawBackOff s) url (EventTypePtr eventType)
                       "unable to request event types")
              (fun r : EventType * option error =>
                 let '(eventType, err) := r in
                 match err with
                 | Some err => RawReturn (None, Some err)
                 | None => RawReturn (Some eventType, None)
                 end)
  | _, _ => RawPanic
  end.

(** [Create] on a receiver that may be nil.  The error of the helper is
    looked at first; without one, [response.Body] is read for the
    deferred [Close], which panics on a nil response. *)
Definition rawCreate `{Json} (e : option rawEventAPI)
           (eventType : option EventType) : rawProg (option error) :=
  match e, rawEventBaseURL e with
  | Some s, Some url =>
      RawCall (httpPOST (rawBackOff s) url eventType)
        (fun r : option http.Response * option error =>
           let '(response, err) := r in
           match err with
           | Some err =>
               RawReturn (Some (errors.Wrap err
                                  "unable to create event type"))
           | None =>
               match response with
               | None => RawPanic
               | Some response =>
                   rawDefer (bodyClose response)
                     (if http.StatusCode response =? http.StatusCreated
                      then RawReturn None
                      else
                        match decodeProblem (http.Body response) with
                        | inr err =>
                            RawReturn
                              (Some (errors.Wrap err
                                       "unable to decode response body"))
                        | inl problem =>
                            RawReturn
                              (Some (errors.Errorf
                                       ("unable to create event type: "
                                          +:+ Detail problem)))
                        end)
               end
           end)
  | _, _ => RawPanic
  end.

(** [Update] on a receiver that may be nil.  [eventType.Name] is an
    argument of the helper call and panics on a nil entity. *)
Definition rawUpdate `{Json} (e : option rawEventAPI)
           (eventType : option EventType) : rawProg (option error) :=
  match e, eventType with
  | Some s, Some pointed =>
      match rawEventURL e (Name pointed) with
      | None => RawPanic
      | Some url =>
          RawCall (httpPUT (rawBackOff s) url eventType)
            (fun r : option http.Response * option error =>
               let '(response, err) := r in
               match err with
               | Some err =>
                   RawReturn (Some (errors.Wrap err
                                      "unable to update event type"))
               | None =>
                   match response with
                   | None => RawPanic
                   | Some response =>
                       rawDefer (bodyClose response)
                         (if http.StatusCode response =? http.StatusOK
                          then RawReturn None
                          else
                            match decodeProblem (http.Body response) with
                            | inr err =>
                                RawReturn
                                  (Some (errors.Wrap err
                                           "unable to decode response body"))
                            | inl problem =>
                                RawReturn
                                  (Some (errors.Errorf
                                           ("unable to update event type: "
                                              +:+ Detail problem)))
                            end)
                   end
               end)
      end
  | _, _ => RawPanic
  end.

(** [Delete] on a receiver that may be nil. *)
Definition rawDelete (e : option rawEventAPI) (name : string)
  : rawProg (option error) :=
  match e, rawEventURL e name with
  | Some s, Some url =>
      RawCall (httpDELETE (rawBackOff s) url "unable to delete event type")
              (fun err : option error => RawReturn err)
  | _, _ => RawPanic
  end.

Definition rawInvoke `{Json} (e : option rawEventAPI) (i : invocation)
  : rawProg answer :=
  match i with
  | InvokeList => rawMap (fun r => ListAnswer (fst r) (snd r)) (rawList e)
  | InvokeGet name =>
      rawMap (fun r => GetAnswer (fst r) (snd r)) (rawGet e name)
  | InvokeCreate eventType => rawMap ErrorAnswer (rawCreate e eventType)
  | InvokeUpdate eventType => rawMap ErrorAnswer (rawUpdate e eventType)
  | InvokeDelete name => rawMap ErrorAnswer (rawDelete e name)
  end.

(** A receiver with its client there, as the operations of the sections
    above take it. *)
Definition present (e : EventAPI) : option rawEventAPI :=
  Some {| rawClient := Some (client e); rawBackOff := backOff e |}.

(** A helper that brings back a response or an error, with the Go
    types. *)
Definition asRaw {W : Type} (h : handler W) : rawHandler W :=
  fun c =>
    match c return (W -> result c * W) -> W -> rawResult c * W with
    | httpGET _ _ _ _ => fun answer => answer
    | httpPOST _ _ _ =>
        fun answer w =>
          (match fst (answer w) with
           | inl response => (Some response, None)
           | inr err => (None, Some err)
           end, snd (answer w))
    | httpPUT _ _ _ =>
        fun answer w =>
          (match fst (answer w) with
           | inl response => (Some response, None)
           | inr err => (None, Some err)
           end, snd (answer w))
    | httpDELETE _ _ _ => fun answer => answer
    | bodyClose _ => fun answer => answer
    end (h c).

(** The helper of [Create] or [Update] brings back neither a response
    nor an error. *)
Definition nilAnswer {W : Type} (h : rawHandler W) (e : EventAPI)
           (i : invocation) (w : W) : Prop :=
  match i with
  | InvokeCreate eventType =>
      fst (h (httpPOST (backOff e) (eventBaseURL e) eventType) w)
      = (None, None)
  | InvokeUpdate (Some eventType) =>
      fst (h (httpPUT (backOff e) (eventURL e (Name eventType))
                      (Some eventType)) w)
      = (None, None)
  | _ => False
  end.


(** ** What the specification says, in its own words *)

(** "Each zero-valued duration field is replaced by the package
    default." *)
Definition orDefault (d default : Duration) : Duration :=
  if d =? 0 then default else d.

(** The options value behind a pointer that may be nil: a nil pointer
    stands for the zero value. *)
Definition optionsAt (h : heap) (o : option loc) : EventOptions :=
  match o with
  | Some l => loadOptions h l
  | None => zeroEventOptions
  end.

(** The options with the defaults put in. *)
Definition defaulted `{Defaults} (o : EventOptions) : EventOptions :=
  {| Retry := Retry o;
     InitialRetryInterval :=
       orDefault (InitialRetryInterval o) defaultInitialRetryInterval;
     MaxRetryInterval :=
       orDefault (MaxRetryInterval o) defaultMaxRetryInterval;
     MaxElapsedTime :=
       orDefault (MaxElapsedTime o) defaultMaxElapsedTime |}.

(** The backoff object the options ask for. *)
Definition policyFor (o : EventOptions) : backoff.BackOff :=
  if Retry o
  then backoff.Exponential
         {| backoff.InitialInterval := InitialRetryInterval o;
            backoff.MaxInterval := MaxRetryInterval o;
            backoff.MaxElapsedTime := MaxElapsedTime o |}
  else backoff.StopBackOff.

(** "An error whose message contains the detail." *)
Definition contains (s t : string) : Prop := ∃ a b, s = a +:+ t +:+ b.

(** What [Create] and [Update] return for a response: nothing for the
    success status, otherwise the error made from the body, with the
    context message of the operation. *)
Definition responseError `{Json} (success : Z) (context : string)
           (response : http.Response) : option error :=
  if http.StatusCode response =? success
  then None
  else
    match decodeProblem (http.Body response) with
    | inr err => Some (errors.Wrap err "unable to decode response body")
    | inl problem =>
        Some (errors.Errorf (context +:+ ": " +:+ Detail problem))
    end.

(** The helper calls among the calls of an operation. *)
Definition isHelperCall (c : call) : bool :=
  match backOffOf c with
  | Some _ => true
  | None => false
  end.

Definition helperCalls (cs : list call) : list call :=
  List.filter isHelperCall cs.

(** Every helper call a function body can make is handed the backoff
    object [b]. *)
Fixpoint handsOnly {A : Type} (b : loc) (p : prog A) : Prop :=
  match p with
  | Return _ => True
  | Panic => True
  | Call c k => (∀ b', backOffOf c = Some b' → b' = b) ∧ ∀ r, handsOnly b (k r)
  end.

(** ** Concrete collaborators, for the examples *)

Definition exampleDefaults : Defaults :=
  {| defaultInitialRetryInterval := 10000000;
     defaultMaxRetryInterval := 10000000000;
     defaultMaxElapsedTime := 30000000000 |}.

(** A decoder that knows the bodies of the examples: [null], the empty
    array, and a problem written as [detail=] followed by the detail. *)
Definition exampleJson : Json :=
  {| decodeProblem body :=
       if String.prefix "detail=" body
       then inl {| Detail :=
                     String.substring 7 (String.length body - 7) body |}
       else inr (errors.New "invalid character");
     decodeInto body text :=
       match body return pointee body + error with
       | EventTypesPtr _ =>
           if String.eqb text "null" then inl None
           else if String.eqb text "[]" then inl (Some [])
           else inr (errors.New "invalid character")
       | EventTypePtr eventType =>
           if String.eqb text "null" then inl eventType
           else inr (errors.New "invalid character")
       end |}.

(** A remote side that answers every request with the same status and
    body, and an exponential policy that grants two waits. *)
Definition steadyRemote (status : Z) (body : string) : Remote :=
  {| transport _ _ := inl {| http.StatusCode := status; http.Body := body |};
     exponentialWaits back _ :=
       [backoff.InitialInterval back; backoff.MaxInterval back] |}.

(** A remote side that refuses every connection. *)
Definition deadRemote : Remote :=
  {| transport _ _ := inr (errors.New "connection refused");
     exponentialWaits back _ :=
       [backoff.InitialInterval back; backoff.MaxInterval back] |}.

Definition exampleClient : Client := {| nakadiURL := "http://localhost:8080" |}.

(** An [EventAPI] made with nil options on an empty heap, and one made
    with retries switched on. *)
Definition plainAPI : EventAPI * heap :=
  @NewEventAPI exampleDefaults exampleClient None ∅.

Definition retryOptions : EventOptions :=
  {| Retry := true; InitialRetryInterval := 0;
     MaxRetryInterval := 0; MaxElapsedTime := 0 |}.

Definition retryAPI : EventAPI * heap :=
  @NewEventAPI exampleDefaults exampleClient (Some 1%positive)
               {[ 1%positive := ObjEventOptions retryOptions ]}.

(** Options that leave retries off and set all three durations, stored
    at address 1. *)
Definition quietOptions : EventOptions :=
  {| Retry := false; InitialRetryInterval := 5;
     MaxRetryInterval := 60; MaxElapsedTime := 600 |}.

Definition quietHeap : heap := {[ 1%positive := ObjEventOptions quietOptions ]}.

Definition exampleWorld (a : EventAPI * heap) : World :=
  {| objects := snd a; sent := [] |}.

Definition exampleEventType : EventType :=
  {| Name := "order.created"; OwningApplication := "shop";
     Category := "data"; EnrichmentStrategies := None;
     PartitionStrategy := ""; CompatibilityMode := "";
     Schema := None; PartitionKeyFields := Some [];
     DefaultStatistics := None; Options := None;
     CreatedAt := 0; UpdatedAt := 0 |}.

(** * Properties *)

(** ** Allocation *)

Lemma alloc_fresh (v : object) (h : heap) : (fst (alloc v h)) ∉ dom h.
Proof. apply is_fresh. Qed.

Lemma alloc_lookup_new (v : object) (h : heap) :
  (snd (alloc v h)) !! (fst (alloc v h)) = Some v.
Proof. unfold alloc. cbn [fst snd]. apply lookup_insert_eq. Qed.

Lemma alloc_lookup_old (v : object) (h : heap) (l : loc) :
  l ∈ dom h → (snd (alloc v h)) !! l = h !! l.
Proof.
  intros Hl. unfold alloc. cbn [snd].
  apply lookup_insert_ne. intros E. apply (is_fresh (dom h)). by rewrite E.
Qed.

Lemma alloc_dom (v : object) (h : heap) :
  dom (snd (alloc v h)) = {[ (fst (alloc v h)) ]} ∪ dom h.
Proof. unfold alloc. cbn [fst snd]. apply dom_insert_L. Qed.

(** The address of a new object depends on the addresses in use, not on
    what is stored. *)
Lemma alloc_address (v v' : object) (h h' : heap) :
  dom h = dom h' → (fst (alloc v h)) = (fst (alloc v' h')).
Proof. intros E. unfold alloc. cbn [fst]. by rewrite E. Qed.

(** ** Options *)

(** The copy [withDefaults] builds, field by field. *)
Lemma withDefaults_value `{Defaults} (o : option loc) (h : heap) :
  withDefaults o h = alloc (ObjEventOptions (defaulted (optionsAt h o))) h.
Proof.
  unfold withDefaults, defaulted, orDefault.
  f_equal. f_equal.
  destruct (optionsAt h o) as [r i m t] eqn:Ho.
  unfold optionsAt in Ho. rewrite Ho. simpl.
  destruct (i =? 0); simpl; destruct (m =? 0); simpl; destruct (t =? 0);
    reflexivity.
Qed.

Lemma loadOptions_alloc (v : EventOptions) (h : heap) :
  loadOptions (snd (alloc (ObjEventOptions v) h)) (fst (alloc (ObjEventOptions v) h))
  = v.
Proof. unfold loadOptions. by rewrite alloc_lookup_new. Qed.

(** [NewEventAPI] allocates the copy of the options and one backoff
    object, the one the defaulted options ask for. *)
Lemma NewEventAPI_value `{Defaults} (cl : Client) (o : option loc) (h : heap) :
  let copy := ObjEventOptions (defaulted (optionsAt h o)) in
  let policy := ObjBackOff (policyFor (defaulted (optionsAt h o))) in
  NewEventAPI cl o h =
    ({| client := cl; backOff := (fst (alloc policy (snd (alloc copy h)))) |},
     (snd (alloc policy (snd (alloc copy h))))).
Proof.
  intros copy policy. unfold NewEventAPI.
  rewrite withDefaults_value. fold copy.
  destruct (alloc copy h) as [l1 h1] eqn:Ha.
  assert (Hl : loadOptions h1 l1 = defaulted (optionsAt h o)).
  { pose proof (loadOptions_alloc (defaulted (optionsAt h o)) h) as E.
    fold copy in E. by rewrite Ha in E. }
  rewrite Hl. subst policy. unfold policyFor, alloc. simpl.
  destruct (Retry (optionsAt h o)); reflexivity.
Qed.

(** The backoff object of a new [EventAPI] is at a new address, holds the
    policy of the options, and nothing that was on the heap changed. *)
Lemma NewEventAPI_heap `{Defaults} (cl : Client) (o : option loc) (h : heap) :
  client (fst (NewEventAPI cl o h)) = cl ∧
  (backOff (fst (NewEventAPI cl o h)) ∉ dom h) ∧
  snd (NewEventAPI cl o h) !! backOff (fst (NewEventAPI cl o h))
    = Some (ObjBackOff (policyFor (defaulted (optionsAt h o)))) ∧
  (∀ l, l ∈ dom h → snd (NewEventAPI cl o h) !! l = h !! l).
Proof.
  rewrite NewEventAPI_value. cbn [fst snd backOff client].
  set (copy := ObjEventOptions (defaulted (optionsAt h o))).
  set (policy := ObjBackOff (policyFor (defaulted (optionsAt h o)))).
  split; [reflexivity|]. split; [|split].
  - pose proof (alloc_fresh policy (snd (alloc copy h))) as Hf.
    rewrite alloc_dom in Hf. set_solver.
  - apply alloc_lookup_new.
  - intros l Hl. rewrite alloc_lookup_old.
    + by apply alloc_lookup_old.
    + rewrite alloc_dom. set_solver.
Qed.

(** With the [Retry] flag on, the backoff object is an exponential one
    that holds the three durations of the options, defaults put in. *)
Lemma NewEventAPI_retry_policy `{Defaults} (cl : Client) (o : option loc)
      (h : heap) :
  Retry (optionsAt h o) = true →
  snd (NewEventAPI cl o h) !! backOff (fst (NewEventAPI cl o h))
  = Some (ObjBackOff
            (backoff.Exponential
               {| backoff.InitialInterval :=
                    orDefault (InitialRetryInterval (optionsAt h o))
                              defaultInitialRetryInterval;
                  backoff.MaxInterval :=
                    orDefault (MaxRetryInterval (optionsAt h o))
                              defaultMaxRetryInterval;
                  backoff.MaxElapsedTime :=
                    orDefault (MaxElapsedTime (optionsAt h o))
                              defaultMaxElapsedTime |})).
Proof.
  intros E. destruct (NewEventAPI_heap cl o h) as (_ & _ & -> & _).
  unfold policyFor. simpl. by rewrite E.
Qed.

(** C8.  For every options pointer, nil included, [withDefaults] stores a
    copy at a new address: the copy has every zero duration replaced by
    its package default and the other fields as they were, and every
    object that was on the heap, the caller's options among them, is as
    before.  [NewEventAPI] on nil options returns an [EventAPI], whose
    backoff object is the one of the zero options with the defaults. *)
Theorem withDefaults_fresh_copy `{Defaults} (o : option loc) (h : heap) :
  (fst (withDefaults o h) ∉ dom h) ∧
  (∀ l, l ∈ dom h → snd (withDefaults o h) !! l = h !! l) ∧
  snd (withDefaults o h) !! (fst (withDefaults o h))
    = Some (ObjEventOptions
              {| Retry := Retry (optionsAt h o);
                 InitialRetryInterval :=
                   orDefault (InitialRetryInterval (optionsAt h o))
                             defaultInitialRetryInterval;
                 MaxRetryInterval :=
                   orDefault (MaxRetryInterval (optionsAt h o))
                             defaultMaxRetryInterval;
                 MaxElapsedTime :=
                   orDefault (MaxElapsedTime (optionsAt h o))
                             defaultMaxElapsedTime |}) ∧
  (∀ cl : Client,
     client (fst (NewEventAPI cl None h)) = cl ∧
     snd (NewEventAPI cl None h) !! backOff (fst (NewEventAPI cl None h))
       = Some (ObjBackOff backoff.StopBackOff)).
Proof.
  rewrite withDefaults_value. repeat split.
  - apply alloc_fresh.
  - intros l Hl. by apply alloc_lookup_old.
  - apply alloc_lookup_new.
  - by destruct (NewEventAPI_heap cl None h) as (-> & _).
  - by destruct (NewEventAPI_heap cl None h) as (_ & _ & -> & _).
Qed.

(** ** Running function bodies *)

Lemma run_defer {W A : Type} (h : handler W) (c : call) (p : prog A) (w : W) :
  run h (defer c p) w = (fst (run h p w), snd (h c (snd (run h p w)))).
Proof.
  revert w. induction p as [a| |c' k IH]; intros w; simpl.
  - by destruct (h c w).
  - by destruct (h c w).
  - destruct (h c' w) as [r w']. apply IH.
Qed.

Lemma run_pmap {W A B : Type} (h : handler W) (f : A → B) (p : prog A) (w : W) :
  run h (pmap f p) w =
    (match fst (run h p w) with
     | Returned a => Returned (f a)
     | Panicked => Panicked
     end, snd (run h p w)).
Proof.
  revert w. induction p as [a| |c k IH]; intros w; simpl; try reflexivity.
  destruct (h c w) as [r w']. apply IH.
Qed.

Lemma calls_defer {W A : Type} (h : handler W) (c : call) (p : prog A) (w : W) :
  calls h (defer c p) w = (calls h p w ++ [c])%list.
Proof.
  revert w. induction p as [a| |c' k IH]; intros w; simpl.
  - by destruct (h c w).
  - by destruct (h c w).
  - destruct (h c' w) as [r w']. by rewrite IH.
Qed.

Lemma calls_pmap {W A B : Type} (h : handler W) (f : A → B) (p : prog A) (w : W) :
  calls h (pmap f p) w = calls h p w.
Proof.
  revert w. induction p as [a| |c k IH]; intros w; simpl; try reflexivity.
  destruct (h c w) as [r w']. by rewrite IH.
Qed.

(** ** What each operation does with the answer of its helper *)

Lemma List_run {W : Type} (h : handler W) (e : EventAPI) (w : W) :
  let r := h (httpGET (backOff e) (eventBaseURL e) (EventTypesPtr (Some []))
                      "unable to request event types") w in
  run h (List e) w =
    (Returned (match snd (fst r) with
               | Some err => (None, Some err)
               | None => (fst (fst r), None)
               end), snd r).
Proof.
  simpl. destruct (h _ w) as [[eventTypes [err|]] w']; reflexivity.
Qed.

Lemma Get_run {W : Type} (h : handler W) (e : EventAPI)
      (name : string) (w : W) :
  let r := h (httpGET (backOff e) (eventURL e name) (EventTypePtr zeroEventType)
                      "unable to request event types") w in
  run h (Get e name) w =
    (Returned (match snd (fst r) with
               | Some err => (None, Some err)
               | None => (Some (fst (fst r)), None)
               end), snd r).
Proof.
  simpl. destruct (h _ w) as [[eventType [err|]] w']; reflexivity.
Qed.

Lemma Create_run `{Json} {W : Type} (h : handler W) (e : EventAPI)
      (eventType : option EventType) (w : W) :
  let r := h (httpPOST (backOff e) (eventBaseURL e) eventType) w in
  run h (Create e eventType) w =
    match fst r with
    | inr err =>
        (Returned (Some (errors.Wrap err "unable to create event type")),
         snd r)
    | inl response =>
        (Returned (responseError http.StatusCreated
                                 "unable to create event type" response),
         snd (h (bodyClose response) (snd r)))
    end.
Proof.
  cbn [Create run]. destruct (h _ w) as [[response|err] w']; cbn [fst snd].
  - rewrite run_defer. unfold responseError.
    destruct (http.StatusCode response =? http.StatusCreated); [reflexivity|].
    destruct (decodeProblem (http.Body response)); reflexivity.
  - reflexivity.
Qed.

Lemma Update_run `{Json} {W : Type} (h : handler W) (e : EventAPI)
      (eventType : EventType) (w : W) :
  let r := h (httpPUT (backOff e) (eventURL e (Name eventType))
                      (Some eventType)) w in
  run h (Update e (Some eventType)) w =
    match fst r with
    | inr err =>
        (Returned (Some (errors.Wrap err "unable to update event type")),
         snd r)
    | inl response =>
        (Returned (responseError http.StatusOK
                                 "unable to update event type" response),
         snd (h (bodyClose response) (snd r)))
    end.
Proof.
  cbn [Update run]. destruct (h _ w) as [[response|err] w']; cbn [fst snd].
  - rewrite run_defer. unfold responseError.
    destruct (http.StatusCode response =? http.StatusOK); [reflexivity|].
    destruct (decodeProblem (http.Body response)); reflexivity.
  - reflexivity.
Qed.

Lemma Delete_run {W : Type} (h : handler W) (e : EventAPI)
      (name : string) (w : W) :
  let r := h (httpDELETE (backOff e) (eventURL e name)
                         "unable to delete event type") w in
  run h (Delete e name) w = (Returned (fst r), snd r).
Proof. simpl. by destruct (h _ w). Qed.

(** ** Strings *)

Lemma append_nil_r (s : string) : s +:+ "" = s.
Proof.
  induction s as [|c s IH]; [reflexivity|].
  change (String c (s +:+ "") = String c s). by rewrite IH.
Qed.

Lemma append_assoc (s t u : string) : (s +:+ t) +:+ u = s +:+ t +:+ u.
Proof.
  induction s as [|c s IH]; [reflexivity|].
  change (String c ((s +:+ t) +:+ u) = String c (s +:+ t +:+ u)).
  by rewrite IH.
Qed.

Lemma contains_suffix (s t : string) : contains (s +:+ t) t.
Proof. exists s, "". by rewrite append_nil_r. Qed.

(** ** URLs *)

(** C10.  The item URL is the base URL, then [/event-types/], then the
    name, for every name.  The empty name gives the collection path with
    a slash after it, and [Get] and [Delete] with the empty name make
    their one helper call on that URL and return what the helper
    answered: no error is made locally. *)
Theorem eventURL_concatenation {W : Type} (h : handler W) (e : EventAPI)
        (name : string) (w : W) :
  let item := nakadiURL (client e) +:+ "/event-types/" in
  let get := httpGET (backOff e) item (EventTypePtr zeroEventType)
                     "unable to request event types" in
  let delete := httpDELETE (backOff e) item "unable to delete event type" in
  eventURL e name = nakadiURL (client e) +:+ "/event-types/" +:+ name ∧
  eventURL e "" = item ∧
  eventURL e "" = eventBaseURL e +:+ "/" ∧
  calls h (Get e "") w = [get] ∧
  run h (Get e "") w =
    (Returned (match snd (fst (h get w)) with
               | Some err => (None, Some err)
               | None => (Some (fst (fst (h get w))), None)
               end), snd (h get w)) ∧
  calls h (Delete e "") w = [delete] ∧
  run h (Delete e "") w = (Returned (fst (h delete w)), snd (h delete w)).
Proof.
  intros item get delete.
  assert (E : eventURL e "" = item) by reflexivity.
  split; [reflexivity|]. split; [exact E|]. split.
  { unfold eventURL, eventBaseURL. by rewrite append_assoc. }
  split.
  { unfold Get. rewrite E. fold get. simpl.
    by destruct (h get w) as [[v [err|]] w']. }
  split.
  { pose proof (Get_run h e "" w) as R. cbv zeta in R. rewrite E in R.
    exact R. }
  split.
  { unfold Delete. rewrite E. fold delete. simpl. by destruct (h delete w). }
  pose proof (Delete_run h e "" w) as R. cbv zeta in R. rewrite E in R.
  exact R.
Qed.

(** ** Create and Update *)

Lemma responseError_None `{Json} (success : Z) (context : string)
      (response : http.Response) :
  responseError success context response = None
  ↔ http.StatusCode response = success.
Proof.
  unfold responseError.
  destruct (Z.eqb_spec (http.StatusCode response) success) as [E|E].
  - tauto.
  - destruct (decodeProblem (http.Body response)); split; congruence.
Qed.

Lemma responseError_problem `{Json} (success : Z) (context : string)
      (response : http.Response) :
  http.StatusCode response ≠ success →
  match decodeProblem (http.Body response) with
  | inl problem =>
      ∃ err, responseError success context response = Some err ∧
             errors.Error err = context +:+ ": " +:+ Detail problem ∧
             contains (errors.Error err) (Detail problem)
  | inr err =>
      responseError success context response
      = Some (errors.Wrap err "unable to decode response body")
  end.
Proof.
  intros Hs. unfold responseError.
  destruct (Z.eqb_spec (http.StatusCode response) success) as [E|E];
    [contradiction|].
  destruct (decodeProblem (http.Body response)) as [problem|err];
    [|reflexivity].
  eexists. split; [reflexivity|]. split; [reflexivity|].
  simpl. rewrite <- (append_assoc context ": " (Detail problem)).
  apply contains_suffix.
Qed.

(** C4.  [Create] returns a nil error exactly when its helper brought
    back a response with status 201.  For a response with another status
    it decodes the body as a problem: the error message is the context of
    the operation followed by the detail, and so contains the detail;
    when the body does not decode, the error of the decoder is returned,
    wrapped as a decode error. *)
Theorem Create_nil_iff_created `{Json} {W : Type} (h : handler W)
        (e : EventAPI) (eventType : option EventType) (w : W) :
  let answer := fst (h (httpPOST (backOff e) (eventBaseURL e) eventType) w) in
  let returned := fst (run h (Create e eventType) w) in
  (returned = Returned None ↔
   ∃ response, answer = inl response ∧
               http.StatusCode response = http.StatusCreated) ∧
  (∀ response,
     answer = inl response →
     http.StatusCode response ≠ http.StatusCreated →
     match decodeProblem (http.Body response) with
     | inl problem =>
         ∃ err, returned = Returned (Some err) ∧
                errors.Error err
                = "unable to create event type: " +:+ Detail problem ∧
                contains (errors.Error err) (Detail problem)
     | inr err =>
         returned
         = Returned (Some (errors.Wrap err "unable to decode response body"))
     end).
Proof.
  intros answer returned. subst returned.
  pose proof (Create_run h e eventType w) as R. cbv zeta in R.
  fold answer in R. rewrite R. clear R.
  split.
  - destruct answer as [response|err]; cbn [fst]; split.
    + intros E. exists response. split; [reflexivity|].
      apply (responseError_None _ "unable to create event type").
      congruence.
    + intros (response' & E & Hs). injection E as <-.
      apply (responseError_None _ "unable to create event type") in Hs.
      by rewrite Hs.
    + discriminate.
    + intros (response' & E & _). discriminate.
  - intros response -> Hs. cbn [fst].
    pose proof (responseError_problem _ "unable to create event type"
                                      response Hs) as P.
    destruct (decodeProblem (http.Body response)) as [problem|err].
    + destruct P as (err & -> & Hm & Hc). by exists err.
    + by rewrite P.
Qed.

(** C5.  [Update] hands [httpPUT] the URL made of the base URL,
    [/event-types/] and the [Name] field of the entity, with the entity
    as the body, and makes no other helper call.  It returns a nil error
    exactly when the helper brought back a response with status 200; for
    a response with another status the message of the error is the
    context of the operation followed by the detail of the decoded
    problem. *)
Theorem Update_put_by_name `{Json} {W : Type} (h : handler W)
        (e : EventAPI) (eventType : EventType) (w : W) :
  let url := nakadiURL (client e) +:+ "/event-types/" +:+ Name eventType in
  let put := httpPUT (backOff e) url (Some eventType) in
  let answer := fst (h put w) in
  let returned := fst (run h (Update e (Some eventType)) w) in
  helperCalls (calls h (Update e (Some eventType)) w) = [put] ∧
  (returned = Returned None ↔
   ∃ response, answer = inl response ∧
               http.StatusCode response = http.StatusOK) ∧
  (∀ response,
     answer = inl response →
     http.StatusCode response ≠ http.StatusOK →
     match decodeProblem (http.Body response) with
     | inl problem =>
         ∃ err, returned = Returned (Some err) ∧
                errors.Error err
                = "unable to update event type: " +:+ Detail problem ∧
                contains (errors.Error err) (Detail problem)
     | inr err =>
         returned
         = Returned (Some (errors.Wrap err "unable to decode response body"))
     end).
Proof.
  intros url put answer returned. subst returned.
  pose proof (Update_run h e eventType w) as R. cbv zeta in R.
  change (eventURL e (Name eventType)) with url in R.
  fold put in R. fold answer in R. rewrite R. clear R.
  split; [|split].
  - cbn [Update calls]. change (eventURL e (Name eventType)) with url.
    fold put. destruct (h put w) as [[response|err] w']; [|reflexivity].
    rewrite calls_defer. unfold helperCalls. cbn [List.filter isHelperCall backOffOf put].
    rewrite List.filter_app. cbn [List.filter isHelperCall backOffOf].
    rewrite app_nil_r.
    destruct (http.StatusCode response =? http.StatusOK); [reflexivity|].
    destruct (decodeProblem (http.Body response)); reflexivity.
  - destruct answer as [response|err]; cbn [fst]; split.
    + intros E. exists response. split; [reflexivity|].
      apply (responseError_None _ "unable to update event type").
      congruence.
    + intros (response' & E & Hs). injection E as <-.
      apply (responseError_None _ "unable to update event type") in Hs.
      by rewrite Hs.
    + discriminate.
    + intros (response' & E & _). discriminate.
  - intros response -> Hs. cbn [fst].
    pose proof (responseError_problem _ "unable to update event type"
                                      response Hs) as P.
    destruct (decodeProblem (http.Body response)) as [problem|err].
    + destruct P as (err & -> & Hm & Hc). by exists err.
    + by rewrite P.
Qed.

(** ** List and Get *)

(** C6.  [List] hands its helper an empty slice that is not nil.  When
    the helper reports no error and the slice holds the empty collection,
    [List] returns that empty slice, not a nil one, and a nil error. *)
Theorem List_empty_collection {W : Type} (h : handler W) (e : EventAPI)
        (w : W) :
  let get := httpGET (backOff e) (eventBaseURL e) (EventTypesPtr (Some []))
                     "unable to request event types" in
  snd (fst (h get w)) = None →
  fst (fst (h get w)) = Some [] →
  calls h (List e) w = [get] ∧
  fst (run h (List e) w) = Returned (Some [], None).
Proof.
  intros get Herr Hstored. split.
  - unfold List. fold get. simpl. by destruct (h get w) as [[v [err|]] w'].
  - pose proof (List_run h e w) as R. cbv zeta in R. fold get in R.
    rewrite R, Herr, Hstored. reflexivity.
Qed.

(** The service answers 200 with an empty array, the client decodes it,
    and [List] returns the empty slice. *)
Lemma List_empty_collection_witness :
  let h := @clientHandler exampleJson (steadyRemote 200 "[]") in
  fst (run h (List (fst plainAPI)) (exampleWorld plainAPI))
  = Returned (Some [], None).
Proof.
  refine (proj2 (List_empty_collection
                   (@clientHandler exampleJson (steadyRemote 200 "[]"))
                   (fst plainAPI) (exampleWorld plainAPI) _ _));
    vm_compute; reflexivity.
Defined.

(** C9, as the code has it.  [List] and [Get] return a nil result with
    every error.  Without an error [Get] returns a pointer that is not
    nil, and [List] returns the slice its helper left in [eventTypes]: the
    variable holds an empty slice when the helper is called, and is
    returned as the helper left it. *)
Theorem List_Get_result_or_error {W : Type} (h : handler W) (e : EventAPI)
        (name : string) (w : W) :
  let stored :=
    fst (fst (h (httpGET (backOff e) (eventBaseURL e) (EventTypesPtr (Some []))
                         "unable to request event types") w)) in
  (∃ eventTypes err,
     fst (run h (List e) w) = Returned (eventTypes, err) ∧
     (err ≠ None → eventTypes = None) ∧
     (err = None → eventTypes = stored)) ∧
  (∃ eventType err,
     fst (run h (Get e name) w) = Returned (eventType, err) ∧
     (err ≠ None → eventType = None) ∧
     (err = None → eventType ≠ None)).
Proof.
  intros stored. split.
  - pose proof (List_run h e w) as R. cbv zeta in R. subst stored.
    rewrite R. destruct (h _ w) as [[v [err|]] w']; cbn [fst snd].
    + exists None, (Some err). split; [reflexivity|]. split; [done|discriminate].
    + exists v, None. split; [reflexivity|]. split; [congruence|done].
  - clear stored. pose proof (Get_run h e name w) as R. cbv zeta in R.
    rewrite R. destruct (h _ w) as [[v [err|]] w']; cbn [fst snd].
    + exists None, (Some err). split; [reflexivity|]. split; [done|discriminate].
    + exists (Some v), None. split; [reflexivity|]. split; [congruence|done].
Qed.

(** C9 as stated fails for [List]: the service answers 200 with the body
    [null], the decoder stores a nil slice, and [List] returns a nil
    slice together with a nil error. *)
Lemma List_nil_slice_without_error :
  let h := @clientHandler exampleJson (steadyRemote 200 "null") in
  fst (run h (List (fst plainAPI)) (exampleWorld plainAPI))
  = Returned (None, None).
Proof. vm_compute. reflexivity. Qed.

(** ** The backoff object of an EventAPI *)

Lemma handsOnly_defer {A : Type} (b : loc) (response : http.Response)
      (p : prog A) :
  handsOnly b p → handsOnly b (defer (bodyClose response) p).
Proof.
  induction p as [a| |c k IH]; simpl.
  - intros _. split; [discriminate | done].
  - intros _. split; [discriminate | done].
  - intros [Hc Hk]. split; [exact Hc|]. intros r. apply IH, Hk.
Qed.

Lemma handsOnly_pmap {A B : Type} (b : loc) (f : A → B) (p : prog A) :
  handsOnly b p → handsOnly b (pmap f p).
Proof.
  induction p as [a| |c k IH]; simpl; try done.
  intros [Hc Hk]. split; [exact Hc|]. intros r. apply IH, Hk.
Qed.


(** Every operation hands its helper the backoff object of the
    [EventAPI], and no other. *)
Lemma invoke_handsOnly `{Json} (e : EventAPI) (i : invocation) :
  handsOnly (backOff e) (invoke e i).
Proof.
  destruct i as [|name|eventType|[eventType|]|name]; simpl.
  - split; [by intros b' [= <-]|]. by intros [v [err|]].
  - split; [by intros b' [= <-]|]. by intros [v [err|]].
  - split; [by intros b' [= <-]|]. intros [response|err]; [|done].
    apply handsOnly_pmap, handsOnly_defer.
    destruct (http.StatusCode response =? http.StatusCreated); [done|].
    by destruct (decodeProblem (http.Body response)).
  - split; [by intros b' [= <-]|]. intros [response|err]; [|done].
    apply handsOnly_pmap, handsOnly_defer.
    destruct (http.StatusCode response =? http.StatusOK); [done|].
    by destruct (decodeProblem (http.Body response)).
  - done.
  - split; [by intros b' [= <-]|]. done.
Qed.


(** ** The client with a disabled policy *)

Lemma waitsOf_stop `{Remote} (w : World) (b : loc) :
  objects w !! b = Some (ObjBackOff backoff.StopBackOff) → waitsOf w b = [].
Proof. intros E. unfold waitsOf. by rewrite E. Qed.

(** Without a wait there is one round trip, whatever it brings. *)
Lemma roundTrips_nil `{Remote} (request : Request) (w : World) :
  roundTrips [] request w =
    (transport (sent w) request,
     {| objects := objects w; sent := sent w ++ [request] |}).
Proof. simpl. by destruct (transport (sent w) request). Qed.

Lemma roundTrips_objects `{Remote} (waits : list Duration) (request : Request)
      (w : World) :
  objects (snd (roundTrips waits request w)) = objects w.
Proof.
  revert w. induction waits as [|d waits IH]; intros w.
  - by rewrite roundTrips_nil.
  - simpl. destruct (transport (sent w) request); [reflexivity|].
    by rewrite IH.
Qed.

(** The client never touches the heap. *)
Lemma clientHandler_objects `{Json} `{Remote} (c : call) (w : World) :
  objects (snd (clientHandler c w)) = objects w.
Proof.
  destruct c as [b url body msg|b url body|b url body|b url msg|response];
    cbn [clientHandler]; try apply roundTrips_objects; [| |reflexivity].
  - unfold clientGET.
    pose proof (roundTrips_objects (waitsOf w b)
                  {| Method := "GET"; URL := url; Payload := None |} w) as E.
    destruct (roundTrips _ _ w) as [[response|err] w']; cbn [snd] in *;
      [|exact E].
    destruct (http.StatusCode response =? http.StatusOK); [|exact E].
    by destruct (decodeInto body (http.Body response)).
  - unfold clientDELETE.
    pose proof (roundTrips_objects (waitsOf w b)
                  {| Method := "DELETE"; URL := url; Payload := None |} w) as E.
    destruct (roundTrips _ _ w) as [[response|err] w']; cbn [snd] in *;
      [|exact E].
    by destruct ((http.StatusCode response =? 200)
                 || (http.StatusCode response =? 204)).
Qed.

(** Under a disabled policy a helper call is one request on the wire, and
    its answer is a function of the requests sent so far. *)
Lemma clientHandler_disabled `{Json} `{Remote} (b : loc) (c : call)
      (w1 w2 : World) :
  (∀ b', backOffOf c = Some b' → b' = b) →
  objects w1 !! b = Some (ObjBackOff backoff.StopBackOff) →
  objects w2 !! b = Some (ObjBackOff backoff.StopBackOff) →
  sent w1 = sent w2 →
  fst (clientHandler c w1) = fst (clientHandler c w2) ∧
  sent (snd (clientHandler c w1)) = sent (snd (clientHandler c w2)) ∧
  (if isHelperCall c
   then ∃ request,
          sent (snd (clientHandler c w1)) = (sent w1 ++ [request])%list
   else sent (snd (clientHandler c w1)) = sent w1).
Proof.
  intros Hb H1 H2 Hs.
  destruct c as [b' url body msg|b' url body|b' url body|b' url msg|response];
    cbn [clientHandler isHelperCall backOffOf];
    try (specialize (Hb b' eq_refl); subst b').
  - unfold clientGET. rewrite !waitsOf_stop, !roundTrips_nil by assumption.
    rewrite <- Hs.
    destruct (transport (sent w1) _) as [response|err]; cbn [fst snd sent].
    + destruct (http.StatusCode response =? http.StatusOK).
      * destruct (decodeInto body (http.Body response)); cbn [fst snd sent];
          eauto.
      * cbn [fst snd sent]; eauto.
    + eauto.
  - unfold clientSend. rewrite !waitsOf_stop, !roundTrips_nil by assumption.
    rewrite <- Hs. cbn [fst snd sent]. eauto.
  - unfold clientSend. rewrite !waitsOf_stop, !roundTrips_nil by assumption.
    rewrite <- Hs. cbn [fst snd sent]. eauto.
  - unfold clientDELETE. rewrite !waitsOf_stop, !roundTrips_nil by assumption.
    rewrite <- Hs.
    destruct (transport (sent w1) _) as [response|err]; cbn [fst snd sent].
    + destruct ((http.StatusCode response =? 200)
                || (http.StatusCode response =? 204)); cbn [fst snd sent];
        eauto.
    + eauto.
  - cbn [fst snd]. eauto.
Qed.

Lemma run_disabled `{Json} `{Remote} {A : Type} (b : loc) (p : prog A)
      (w1 w2 : World) :
  handsOnly b p →
  objects w1 !! b = Some (ObjBackOff backoff.StopBackOff) →
  objects w2 !! b = Some (ObjBackOff backoff.StopBackOff) →
  sent w1 = sent w2 →
  fst (run clientHandler p w1) = fst (run clientHandler p w2) ∧
  sent (snd (run clientHandler p w1)) = sent (snd (run clientHandler p w2)).
Proof.
  revert w1 w2. induction p as [a| |c k IH]; intros w1 w2 Hp H1 H2 Hs;
    simpl; try done.
  destruct Hp as [Hc Hk].
  destruct (clientHandler_disabled b c w1 w2 Hc H1 H2 Hs) as (Er & Es & _).
  pose proof (clientHandler_objects c w1) as O1.
  pose proof (clientHandler_objects c w2) as O2.
  destruct (clientHandler c w1) as [r1 w1'], (clientHandler c w2) as [r2 w2'].
  cbn [fst snd] in *. subst r2.
  apply IH; [apply Hk | by rewrite O1 | by rewrite O2 | exact Es].
Qed.

(** Under a disabled policy the requests on the wire are as many as the
    helper calls. *)
Lemma run_disabled_attempts `{Json} `{Remote} {A : Type} (b : loc)
      (p : prog A) (w : World) :
  handsOnly b p →
  objects w !! b = Some (ObjBackOff backoff.StopBackOff) →
  ∃ requests,
    sent (snd (run clientHandler p w)) = (sent w ++ requests)%list ∧
    length requests = length (helperCalls (calls clientHandler p w)).
Proof.
  revert w. induction p as [a| |c k IH]; intros w Hp Hw; simpl.
  - exists []. by rewrite app_nil_r.
  - exists []. by rewrite app_nil_r.
  - destruct Hp as [Hc Hk].
    destruct (clientHandler_disabled b c w w Hc Hw Hw eq_refl) as (_ & _ & Hn).
    pose proof (clientHandler_objects c w) as O.
    destruct (clientHandler c w) as [r w']. cbn [fst snd] in *.
    destruct (IH r w' (Hk r)) as (requests & Es & El); [by rewrite O|].
    unfold helperCalls in *. cbn [List.filter].
    destruct (isHelperCall c).
    + destruct Hn as [request Hn]. exists (request :: requests).
      rewrite Es, Hn, <- app_assoc. split; [reflexivity|].
      simpl. by rewrite El.
    + exists requests. by rewrite Es, Hn.
Qed.

(** Every invocation makes one helper call, whatever the helper answers
    ([Update] of a nil entity panics before its call). *)
Lemma invoke_one_helper_call `{Json} {W : Type} (h : handler W)
      (e : EventAPI) (i : invocation) (w : W) :
  i ≠ InvokeUpdate None →
  length (helperCalls (calls h (invoke e i) w)) = 1%nat.
Proof.
  intros Hi. unfold invoke.
  destruct i as [|name|eventType|[eventType|]|name]; rewrite calls_pmap.
  - simpl. by destruct (h _ w) as [[v [err|]] w'].
  - simpl. by destruct (h _ w) as [[v [err|]] w'].
  - cbn [Create calls]. destruct (h _ w) as [[response|err] w']; [|reflexivity].
    rewrite calls_defer. unfold helperCalls. cbn [List.filter isHelperCall backOffOf].
    rewrite List.filter_app. cbn [List.filter isHelperCall backOffOf length].
    rewrite length_app. cbn [length].
    destruct (http.StatusCode response =? http.StatusCreated); [reflexivity|].
    by destruct (decodeProblem (http.Body response)).
  - cbn [Update calls]. destruct (h _ w) as [[response|err] w']; [|reflexivity].
    rewrite calls_defer. unfold helperCalls. cbn [List.filter isHelperCall backOffOf].
    rewrite List.filter_app. cbn [List.filter isHelperCall backOffOf length].
    rewrite length_app. cbn [length].
    destruct (http.StatusCode response =? http.StatusOK); [reflexivity|].
    by destruct (decodeProblem (http.Body response)).
  - contradiction.
  - simpl. by destruct (h _ w).
Qed.

Lemma policyFor_disabled `{Defaults} (o : EventOptions) :
  Retry o = false → policyFor (defaulted o) = backoff.StopBackOff.
Proof. intros E. unfold policyFor. simpl. by rewrite E. Qed.

(** The [EventAPI] is at the same address whatever the options hold. *)
Lemma NewEventAPI_address `{Defaults} (cl : Client) (o o' : option loc)
      (h : heap) :
  backOff (fst (NewEventAPI cl o h)) = backOff (fst (NewEventAPI cl o' h)).
Proof.
  rewrite !NewEventAPI_value. cbn [fst backOff].
  apply alloc_address. rewrite !alloc_dom.
  by rewrite (alloc_address _ (ObjEventOptions (defaulted (optionsAt h o')))
                            h h eq_refl).
Qed.

(** C3.  With the [Retry] flag off, the backoff object of the [EventAPI]
    is a [StopBackOff], which holds none of the durations, and every
    operation puts one request on the wire, whatever the transport gives
    for it.  Other options with the flag off give the same [EventAPI],
    the same answers and the same requests. *)
Theorem disabled_retry_single_attempt `{Defaults} `{Json} `{Remote}
        (cl : Client) (o o' : option loc) (hp : heap) (i : invocation)
        (log : list Request) :
  Retry (optionsAt hp o) = false →
  Retry (optionsAt hp o') = false →
  i ≠ InvokeUpdate None →
  let e := fst (NewEventAPI cl o hp) in
  let w := {| objects := snd (NewEventAPI cl o hp); sent := log |} in
  let e' := fst (NewEventAPI cl o' hp) in
  let w' := {| objects := snd (NewEventAPI cl o' hp); sent := log |} in
  objects w !! backOff e = Some (ObjBackOff backoff.StopBackOff) ∧
  (∃ request,
     sent (snd (run clientHandler (invoke e i) w)) = (log ++ [request])%list) ∧
  e' = e ∧
  fst (run clientHandler (invoke e' i) w')
  = fst (run clientHandler (invoke e i) w) ∧
  sent (snd (run clientHandler (invoke e' i) w'))
  = sent (snd (run clientHandler (invoke e i) w)).
Proof.
  intros Ho Ho' Hi e w e' w'.
  assert (Hw : objects w !! backOff e = Some (ObjBackOff backoff.StopBackOff)).
  { destruct (NewEventAPI_heap cl o hp) as (_ & _ & Hobj & _).
    subst w e. cbn [objects]. by rewrite Hobj, policyFor_disabled. }
  assert (Hw' : objects w' !! backOff e'
                = Some (ObjBackOff backoff.StopBackOff)).
  { destruct (NewEventAPI_heap cl o' hp) as (_ & _ & Hobj & _).
    subst w' e'. cbn [objects]. by rewrite Hobj, policyFor_disabled. }
  assert (Ee : e' = e).
  { destruct (NewEventAPI_heap cl o hp) as (Hc & _).
    destruct (NewEventAPI_heap cl o' hp) as (Hc' & _).
    pose proof (NewEventAPI_address cl o' o hp) as Hb.
    subst e e'. destruct (fst (NewEventAPI cl o hp)) as [c1 b1],
                         (fst (NewEventAPI cl o' hp)) as [c2 b2].
    cbn [client backOff] in *. congruence. }
  split; [exact Hw|]. split; [|split; [exact Ee|]].
  - destruct (run_disabled_attempts (backOff e) (invoke e i) w
                (invoke_handsOnly e i) Hw) as (requests & Es & El).
    rewrite (invoke_one_helper_call clientHandler e i w Hi) in El.
    destruct requests as [|request [|? ?]]; try discriminate.
    by exists request.
  - rewrite Ee in *.
    by apply (run_disabled (backOff e) (invoke e i) w' w
                           (invoke_handsOnly e i)).
Qed.

(** Nil options against a remote side that refuses the connection: the
    one attempt fails and is not repeated; options with other durations
    change nothing. *)
Lemma disabled_retry_single_attempt_witness :
  let h := @clientHandler exampleJson deadRemote in
  let e := fst (@NewEventAPI exampleDefaults exampleClient None quietHeap) in
  let w := {| objects :=
                snd (@NewEventAPI exampleDefaults exampleClient None quietHeap);
              sent := [] |} in
  ∃ request,
    sent (snd (run h (@invoke exampleJson e InvokeList) w)) = [request].
Proof.
  refine (proj1 (proj2 (@disabled_retry_single_attempt
                          exampleDefaults exampleJson deadRemote
                          exampleClient None (Some 1%positive) quietHeap
                          InvokeList [] _ _ _)));
    [reflexivity | reflexivity | discriminate].
Defined.

(** ** Errors *)

(** C7 as stated fails: the service answers 500 with a body that is not
    a problem, and [Create] and [Update] return one and the same error,
    whose context message names neither of them. *)
Lemma Create_and_Update_share_decode_error :
  let h := @clientHandler exampleJson (steadyRemote 500 "<html>") in
  let e := fst plainAPI in
  let w := exampleWorld plainAPI in
  let err := errors.Wrap (errors.New "invalid character")
                         "unable to decode response body" in
  fst (run h (@Create exampleJson e (Some exampleEventType)) w)
  = Returned (Some err) ∧
  fst (run h (@Update exampleJson e (Some exampleEventType)) w)
  = Returned (Some err) ∧
  errors.context err = "unable to decode response body" ∧
  errors.Error err = "unable to decode response body: invalid character".
Proof. vm_compute. repeat split. Qed.

(** ** Examples *)

(** A remote problem: the detail is in the message. *)
Example Create_conflict :
  let h := @clientHandler exampleJson (steadyRemote 409 "detail=exists") in
  fst (run h (@Create exampleJson (fst plainAPI) (Some exampleEventType))
           (exampleWorld plainAPI))
  = Returned (Some (errors.New "unable to create event type: exists")).
Proof. vm_compute. reflexivity. Qed.

Example Create_created :
  let h := @clientHandler exampleJson (steadyRemote 201 "") in
  fst (run h (@Create exampleJson (fst plainAPI) (Some exampleEventType))
           (exampleWorld plainAPI))
  = Returned None.
Proof. vm_compute. reflexivity. Qed.

(** [Update] of a nil entity panics before any request is made. *)
Example Update_nil_panics :
  let h := @clientHandler exampleJson (steadyRemote 200 "") in
  run h (@Update exampleJson (fst plainAPI) None) (exampleWorld plainAPI)
  = (Panicked, exampleWorld plainAPI).
Proof. reflexivity. Qed.

(** With retries on and a dead remote side, the two waits of the example
    policy give three attempts, and the last error comes back wrapped. *)
Example Delete_retries :
  let h := @clientHandler exampleJson deadRemote in
  let r := run h (Delete (fst retryAPI) "order.created")
               (exampleWorld retryAPI) in
  fst r = Returned (Some (errors.Wrap (errors.New "connection refused")
                                      "unable to delete event type")) ∧
  length (sent (snd r)) = 3%nat.
Proof. vm_compute. split; reflexivity. Qed.

Example withDefaults_example :
  snd (@withDefaults exampleDefaults (Some 1%positive) quietHeap)
    !! fst (@withDefaults exampleDefaults (Some 1%positive) quietHeap)
  = Some (ObjEventOptions quietOptions) ∧
  snd (@withDefaults exampleDefaults None quietHeap)
    !! fst (@withDefaults exampleDefaults None quietHeap)
  = Some (ObjEventOptions
            {| Retry := false; InitialRetryInterval := 10000000;
               MaxRetryInterval := 10000000000;
               MaxElapsedTime := 30000000000 |}).
Proof. vm_compute. split; reflexivity. Qed.

(** [Update] puts one PUT on the wire, on the URL with the name of the
    entity. *)
Example Update_request :
  let h := @clientHandler exampleJson (steadyRemote 200 "") in
  sent (snd (run h (@Update exampleJson (fst plainAPI) (Some exampleEventType))
                 (exampleWorld plainAPI)))
  = [{| Method := "PUT";
        URL := "http://localhost:8080/event-types/order.created";
        Payload := Some exampleEventType |}].
Proof. vm_compute. reflexivity. Qed.

(** * Further properties of events.go *)

(** ** Options and the heap *)

Lemma orDefault_idempotent (d default : Duration) :
  orDefault (orDefault d default) default = orDefault d default.
Proof.
  unfold orDefault. destruct (d =? 0) eqn:Ed; [|by rewrite Ed].
  by destruct (default =? 0) eqn:E; rewrite ?E.
Qed.

Lemma defaulted_idempotent `{Defaults} (o : EventOptions) :
  defaulted (defaulted o) = defaulted o.
Proof. unfold defaulted. simpl. by rewrite !orDefault_idempotent. Qed.

Lemma orDefault_nonzero (d default : Duration) :
  default ≠ 0 → orDefault d default ≠ 0.
Proof.
  intros Hd. unfold orDefault.
  by destruct (Z.eqb_spec d 0).
Qed.

(** X1.  [withDefaults] is idempotent: called on the copy it returned, it
    stores a second copy, at another address, that holds the same options
    value, and leaves the first copy as it was.  This holds whatever the
    package defaults are. *)
Theorem withDefaults_idempotent `{Defaults} (o : option loc) (h : heap) :
  let first := withDefaults o h in
  let second := withDefaults (Some (fst first)) (snd first) in
  fst second ≠ fst first ∧
  snd second !! fst second = snd first !! fst first ∧
  snd second !! fst first = snd first !! fst first.
Proof.
  intros first second. subst second first.
  rewrite (withDefaults_value o h).
  set (v := defaulted (optionsAt h o)).
  rewrite withDefaults_value. cbn [optionsAt].
  rewrite loadOptions_alloc. subst v. rewrite defaulted_idempotent.
  set (copy := ObjEventOptions (defaulted (optionsAt h o))).
  assert (Hin : fst (alloc copy h) ∈ dom (snd (alloc copy h))).
  { rewrite alloc_dom. set_solver. }
  split; [|split].
  - intros E. apply (alloc_fresh copy (snd (alloc copy h))). by rewrite E.
  - by rewrite !alloc_lookup_new.
  - by apply alloc_lookup_old.
Qed.

(** X2.  When the three package defaults are not zero, no duration of the
    copy that [withDefaults] returns is zero, for every options pointer,
    nil included. *)
Theorem withDefaults_no_zero_duration `{Defaults} (o : option loc) (h : heap) :
  defaultInitialRetryInterval ≠ 0 →
  defaultMaxRetryInterval ≠ 0 →
  defaultMaxElapsedTime ≠ 0 →
  let copy := loadOptions (snd (withDefaults o h)) (fst (withDefaults o h)) in
  InitialRetryInterval copy ≠ 0 ∧
  MaxRetryInterval copy ≠ 0 ∧
  MaxElapsedTime copy ≠ 0.
Proof.
  intros Hi Hm He copy. subst copy.
  rewrite withDefaults_value, loadOptions_alloc. simpl.
  auto using orDefault_nonzero.
Qed.

(** Nil options with the example defaults. *)
Lemma withDefaults_no_zero_duration_witness :
  let copy :=
    loadOptions (snd (@withDefaults exampleDefaults None ∅))
                (fst (@withDefaults exampleDefaults None ∅)) in
  InitialRetryInterval copy ≠ 0 ∧
  MaxRetryInterval copy ≠ 0 ∧
  MaxElapsedTime copy ≠ 0.
Proof.
  refine (@withDefaults_no_zero_duration exampleDefaults None ∅ _ _ _);
    discriminate.
Defined.

(** X3.  With the [Retry] flag on, the backoff object of the new
    [EventAPI] is an exponential one whose initial interval, maximum
    interval and maximum elapsed time are those of the options, each
    replaced by its package default when it is zero. *)
Theorem NewEventAPI_exponential `{Defaults} (cl : Client) (o : option loc)
        (h : heap) :
  Retry (optionsAt h o) = true →
  ∃ back,
    snd (NewEventAPI cl o h) !! backOff (fst (NewEventAPI cl o h))
    = Some (ObjBackOff (backoff.Exponential back)) ∧
    backoff.InitialInterval back
    = orDefault (InitialRetryInterval (optionsAt h o))
                defaultInitialRetryInterval ∧
    backoff.MaxInterval back
    = orDefault (MaxRetryInterval (optionsAt h o)) defaultMaxRetryInterval ∧
    backoff.MaxElapsedTime back
    = orDefault (MaxElapsedTime (optionsAt h o)) defaultMaxElapsedTime.
Proof.
  intros E. destruct (NewEventAPI_heap cl o h) as (_ & _ & -> & _).
  unfold policyFor. simpl. rewrite E. eexists. split; [reflexivity|].
  simpl. auto.
Qed.

(** Options that switch retries on and set only the maximum interval. *)
Lemma NewEventAPI_exponential_witness :
  let h : heap :=
    {[ 1%positive :=
         ObjEventOptions {| Retry := true; InitialRetryInterval := 0;
                            MaxRetryInterval := 7; MaxElapsedTime := 0 |} ]} in
  let made := @NewEventAPI exampleDefaults exampleClient (Some 1%positive) h in
  ∃ back,
    snd made !! backOff (fst made)
    = Some (ObjBackOff (backoff.Exponential back)) ∧
    backoff.InitialInterval back = 10000000 ∧
    backoff.MaxInterval back = 7 ∧
    backoff.MaxElapsedTime back = 30000000000.
Proof.
  refine (@NewEventAPI_exponential exampleDefaults exampleClient
            (Some 1%positive) _ _).
  reflexivity.
Defined.

(** X4.  [NewEventAPI] keeps a snapshot of the options: it leaves every
    object on the heap as it was, and a later write to an object that was
    on the heap, the caller's options among them, does not change the
    backoff object of the [EventAPI]. *)
Theorem NewEventAPI_snapshot `{Defaults} (cl : Client) (o : option loc)
        (h : heap) (l : loc) (v : object) :
  l ∈ dom h →
  let e := fst (NewEventAPI cl o h) in
  let h' := snd (NewEventAPI cl o h) in
  h' !! l = h !! l ∧
  <[l := v]> h' !! backOff e = h' !! backOff e.
Proof.
  intros Hl e h'. subst e h'.
  destruct (NewEventAPI_heap cl o h) as (_ & Hnew & _ & Hold).
  split; [by apply Hold|].
  apply lookup_insert_ne. intros ->. contradiction.
Qed.

(** The caller overwrites its options after the [EventAPI] is made. *)
Lemma NewEventAPI_snapshot_witness :
  let made :=
    @NewEventAPI exampleDefaults exampleClient (Some 1%positive) quietHeap in
  snd made !! 1%positive = quietHeap !! 1%positive ∧
  <[1%positive := ObjEventOptions retryOptions]> (snd made)
    !! backOff (fst made)
  = snd made !! backOff (fst made).
Proof.
  refine (@NewEventAPI_snapshot exampleDefaults exampleClient
            (Some 1%positive) quietHeap 1%positive
            (ObjEventOptions retryOptions) _).
  unfold quietHeap. rewrite dom_singleton_L. by apply elem_of_singleton.
Defined.

(** ** The calls of the operations *)



(** ** URLs *)

(** X9.  For one [EventAPI], different names give different item URLs;
    the item URL is the collection URL, a slash and the name, and it is
    never the collection URL itself, not even for the empty name. *)
Theorem eventURL_injective (e : EventAPI) (name name' : string) :
  (eventURL e name = eventURL e name' ↔ name = name') ∧
  eventURL e name = eventBaseURL e +:+ "/" +:+ name ∧
  eventURL e name ≠ eventBaseURL e.
Proof.
  split; [|split].
  - split; [|by intros ->].
    unfold eventURL. intros E.
    apply (inj (String.append (nakadiURL (client e)))) in E.
    by apply (inj (String.append "/event-types/")) in E.
  - unfold eventURL, eventBaseURL. by rewrite append_assoc.
  - unfold eventURL, eventBaseURL. intros E.
    apply (inj (String.append (nakadiURL (client e)))) in E.
    vm_compute in E. discriminate E.
Qed.

(** ** Transport errors *)

(** X10.  When the helper of [Create] or of [Update] brings back an
    error instead of a response, the operation returns that error wrapped
    with its context message: the message of the result is the context
    message, a colon and the message of the error of the helper, and no
    further call is made. *)
Theorem transport_error_wrapped `{Json} {W : Type} (h : handler W)
        (e : EventAPI) (eventType : EventType) (w : W) (cause : error) :
  let post := httpPOST (backOff e) (eventBaseURL e) (Some eventType) in
  let put := httpPUT (backOff e) (eventURL e (Name eventType))
                     (Some eventType) in
  let created := errors.Wrap cause "unable to create event type" in
  let updated := errors.Wrap cause "unable to update event type" in
  (fst (h post w) = inr cause →
   run h (Create e (Some eventType)) w = (Returned (Some created), snd (h post w)) ∧
   calls h (Create e (Some eventType)) w = [post]) ∧
  (fst (h put w) = inr cause →
   run h (Update e (Some eventType)) w = (Returned (Some updated), snd (h put w)) ∧
   calls h (Update e (Some eventType)) w = [put]) ∧
  errors.Error created
  = "unable to create event type: " +:+ errors.Error cause ∧
  errors.Error updated
  = "unable to update event type: " +:+ errors.Error cause.
Proof.
  intros post put created updated.
  split; [|split; [|split; reflexivity]].
  - intros E.
    pose proof (Create_run h e (Some eventType) w) as R. cbv zeta in R.
    fold post in R. rewrite R, E. split; [reflexivity|].
    cbn [Create calls]. fold post.
    destruct (h post w) as [[response|err] w']; [discriminate|reflexivity].
  - intros E.
    pose proof (Update_run h e eventType w) as R. cbv zeta in R.
    fold put in R. rewrite R, E. split; [reflexivity|].
    cbn [Update calls]. fold put.
    destruct (h put w) as [[response|err] w']; [discriminate|reflexivity].
Qed.

(** The remote side is down: [Create] returns the wrapped error of the
    transport after its one helper call. *)
Lemma transport_error_wrapped_witness :
  let h := @clientHandler exampleJson deadRemote in
  let e := fst plainAPI in
  let w := exampleWorld plainAPI in
  let post := httpPOST (backOff e) (@eventBaseURL e) (Some exampleEventType) in
  fst (run h (@Create exampleJson e (Some exampleEventType)) w)
  = Returned (Some (errors.Wrap (errors.New "connection refused")
                                "unable to create event type")) ∧
  calls h (@Create exampleJson e (Some exampleEventType)) w = [post].
Proof.
  destruct (proj1 (@transport_error_wrapped exampleJson World
                     (@clientHandler exampleJson deadRemote) (fst plainAPI)
                     exampleEventType (exampleWorld plainAPI)
                     (errors.New "connection refused")) eq_refl)
    as [R C].
  split; [by rewrite R | exact C].
Defined.

(** X11.  The URLs are built from the base URL and the name as they are,
    with nothing normalised or escaped: a base URL that ends in a slash
    gives a collection URL with two slashes before [event-types], and the
    item URL of a name with a slash in it is the item URL of the part
    before the slash, the slash and the rest. *)
Theorem URLs_verbatim (base : string) (b : loc) (first rest : string) :
  let e := {| client := {| nakadiURL := base |}; backOff := b |} in
  let slashed := {| client := {| nakadiURL := base +:+ "/" |};
                    backOff := b |} in
  eventBaseURL slashed = base +:+ "//event-types" ∧
  eventURL slashed first = base +:+ "//event-types/" +:+ first ∧
  eventURL e (first +:+ "/" +:+ rest) = eventURL e first +:+ "/" +:+ rest.
Proof.
  intros e slashed. subst e slashed.
  unfold eventBaseURL, eventURL. cbn [client nakadiURL].
  repeat split; rewrite ?append_assoc; reflexivity.
Qed.

(** * The operations on pointers that may be nil *)

(** ** Running them *)

Lemma rawRun_defer {W A : Type} (h : rawHandler W) (c : call) (p : rawProg A)
      (w : W) :
  rawRun h (rawDefer c p) w
  = (fst (rawRun h p w), snd (h c (snd (rawRun h p w)))).
Proof.
  revert w. induction p as [a| |c' k IH]; intros w; simpl.
  - by destruct (h c w).
  - by destruct (h c w).
  - destruct (h c' w) as [r w']. apply IH.
Qed.

Lemma rawRun_map {W A B : Type} (h : rawHandler W) (f : A → B)
      (p : rawProg A) (w : W) :
  rawRun h (rawMap f p) w =
    (match fst (rawRun h p w) with
     | Returned a => Returned (f a)
     | Panicked => Panicked
     end, snd (rawRun h p w)).
Proof.
  revert w. induction p as [a| |c k IH]; intros w; simpl; try reflexivity.
  destruct (h c w) as [r w']. apply IH.
Qed.

(** What [Create] and [Update] return once a response is there. *)
Lemma rawRun_after_response `{Json} {W : Type} (h : rawHandler W)
      (response : http.Response) (success : Z) (context : string) (w : W) :
  fst (rawRun h
         (rawDefer (bodyClose response)
            (if http.StatusCode response =? success
             then RawReturn None
             else
               match decodeProblem (http.Body response) with
               | inr err =>
                   RawReturn (Some (errors.Wrap err
                                      "unable to decode response body"))
               | inl problem =>
                   RawReturn (Some (errors.Errorf
                                      (context +:+ Detail problem)))
               end)) w)
  = Returned
      (if http.StatusCode response =? success
       then None
       else
         match decodeProblem (http.Body response) with
         | inl problem =>
             Some (errors.Errorf (context +:+ Detail problem))
         | inr cause =>
             Some (errors.Wrap cause "unable to decode response body")
         end).
Proof.
  rewrite rawRun_defer. cbn [fst].
  destruct (http.StatusCode response =? success); [reflexivity|].
  by destruct (decodeProblem (http.Body response)).
Qed.

(** With the receiver and its client there, the URLs are those of
    [eventURL] and [eventBaseURL]. *)
Lemma rawEventBaseURL_present (e : EventAPI) :
  rawEventBaseURL (present e) = Some (eventBaseURL e).
Proof. reflexivity. Qed.

Lemma rawEventURL_present (e : EventAPI) (name : string) :
  rawEventURL (present e) name = Some (eventURL e name).
Proof. reflexivity. Qed.

(** With the receiver and its client there, and helpers that bring back
    a response or an error, the operations on pointers do what the
    operations of the sections above do. *)
Lemma rawInvoke_present `{Json} {W : Type} (h : handler W) (e : EventAPI)
      (i : invocation) (w : W) :
  rawRun (asRaw h) (rawInvoke (present e) i) w = run h (invoke e i) w.
Proof.
  unfold rawInvoke, invoke.
  destruct i as [|name|eventType|[eventType|]|name];
    rewrite rawRun_map, run_pmap.
  - simpl. by destruct (h _ w) as [[v [err|]] w'].
  - simpl. by destruct (h _ w) as [[v [err|]] w'].
  - cbn [rawCreate present rawEventBaseURL rawNakadiURL rawClient rawBackOff
         Create rawRun run asRaw].
    destruct (h _ w) as [[response|err] w']; cbn [fst snd]; [|reflexivity].
    rewrite rawRun_defer, run_defer. cbn [asRaw fst snd].
    destruct (http.StatusCode response =? http.StatusCreated); [reflexivity|].
    by destruct (decodeProblem (http.Body response)).
  - cbn [rawUpdate present rawEventURL rawNakadiURL rawClient rawBackOff
         Update rawRun run asRaw].
    destruct (h _ w) as [[response|err] w']; cbn [fst snd]; [|reflexivity].
    rewrite rawRun_defer, run_defer. cbn [asRaw fst snd].
    destruct (http.StatusCode response =? http.StatusOK); [reflexivity|].
    by destruct (decodeProblem (http.Body response)).
  - reflexivity.
  - simpl. by destruct (h _ w).
Qed.

(** ** Errors and panics *)

(** C7, as the code has it.  Take a receiver with its client there, an
    invocation other than [Update] of a nil entity, and a helper of
    [Create] or [Update] that brings back a response or an error.  Then
    the operation does not panic, whatever failure the helper reports: it
    returns, and its error is this.  [List], [Get] and [Delete] return
    the error of their helper as it is, nil when the helper has none,
    having handed the helper a context message: the same one for [List]
    and [Get], another for [Delete].  [Create] and [Update] wrap the
    error of the helper with their own context message; for a response
    with their success status they return nil; for any other response
    they put their context message before the detail of the decoded
    problem, or wrap the error of the decoder with a message that names
    no operation. *)
Theorem operations_return_errors `{Json} {W : Type} (h : rawHandler W)
        (e : EventAPI) (i : invocation) (w : W) :
  i ≠ InvokeUpdate None →
  ¬ nilAnswer h e i w →
  ∃ a,
    fst (rawRun h (rawInvoke (present e) i) w) = Returned a ∧
    errorOf a =
      match i with
      | InvokeList =>
          snd (fst (h (httpGET (backOff e) (eventBaseURL e)
                               (EventTypesPtr (Some []))
                               "unable to request event types") w))
      | InvokeGet name =>
          snd (fst (h (httpGET (backOff e) (eventURL e name)
                               (EventTypePtr zeroEventType)
                               "unable to request event types") w))
      | InvokeCreate eventType =>
          match fst (h (httpPOST (backOff e) (eventBaseURL e) eventType) w)
          with
          | (_, Some cause) =>
              Some (errors.Wrap cause "unable to create event type")
          | (Some response, None) =>
              if http.StatusCode response =? http.StatusCreated
              then None
              else
                match decodeProblem (http.Body response) with
                | inl problem =>
                    Some (errors.Errorf ("unable to create event type: "
                                           +:+ Detail problem))
                | inr cause =>
                    Some (errors.Wrap cause "unable to decode response body")
                end
          | (None, None) => None
          end
      | InvokeUpdate None => None
      | InvokeUpdate (Some eventType) =>
          match fst (h (httpPUT (backOff e) (eventURL e (Name eventType))
                                (Some eventType)) w)
          with
          | (_, Some cause) =>
              Some (errors.Wrap cause "unable to update event type")
          | (Some response, None) =>
              if http.StatusCode response =? http.StatusOK
              then None
              else
                match decodeProblem (http.Body response) with
                | inl problem =>
                    Some (errors.Errorf ("unable to update event type: "
                                           +:+ Detail problem))
                | inr cause =>
                    Some (errors.Wrap cause "unable to decode response body")
                end
          | (None, None) => None
          end
      | InvokeDelete name =>
          fst (h (httpDELETE (backOff e) (eventURL e name)
                             "unable to delete event type") w)
      end.
Proof.
  intros Hi Hn. unfold rawInvoke.
  destruct i as [|name|eventType|[eventType|]|name]; rewrite rawRun_map;
    cbn [fst].
  - cbn [rawList present rawEventBaseURL rawNakadiURL rawClient rawBackOff
         rawRun].
    destruct (h _ w) as [[v [err|]] w']; cbn [fst snd rawRun];
      eexists; split; reflexivity.
  - cbn [rawGet present rawEventURL rawNakadiURL rawClient rawBackOff
         rawRun].
    destruct (h _ w) as [[v [err|]] w']; cbn [fst snd rawRun];
      eexists; split; reflexivity.
  - cbn [nilAnswer] in Hn.
    cbn [rawCreate present rawEventBaseURL rawNakadiURL rawClient rawBackOff
         rawRun].
    change (nakadiURL (client e) +:+ "/event-types") with (eventBaseURL e).
    destruct (h _ w) as [[[response|] [err|]] w']; cbn [fst snd rawRun] in *;
      try (eexists; split; reflexivity); [|by destruct Hn].
    rewrite (rawRun_after_response h response http.StatusCreated
               "unable to create event type: ").
    eexists; split; reflexivity.
  - cbn [nilAnswer] in Hn.
    cbn [rawUpdate present rawEventURL rawNakadiURL rawClient rawBackOff
         rawRun].
    change (nakadiURL (client e) +:+ "/event-types/" +:+ Name eventType)
      with (eventURL e (Name eventType)).
    destruct (h _ w) as [[[response|] [err|]] w']; cbn [fst snd rawRun] in *;
      try (eexists; split; reflexivity); [|by destruct Hn].
    rewrite (rawRun_after_response h response http.StatusOK
               "unable to update event type: ").
    eexists; split; reflexivity.
  - contradiction.
  - cbn [rawDelete present rawEventURL rawNakadiURL rawClient rawBackOff
         rawRun].
    destruct (h _ w) as [err w']; cbn [fst snd rawRun].
    eexists; split; reflexivity.
Qed.

(** The service refuses an event type that exists: [Create] returns the
    context message and the detail. *)
Lemma operations_return_errors_witness :
  let h := asRaw (@clientHandler exampleJson
                                 (steadyRemote 409 "detail=exists")) in
  ∃ a,
    fst (rawRun h (@rawInvoke exampleJson (present (fst plainAPI))
                              (InvokeCreate (Some exampleEventType)))
                (exampleWorld plainAPI)) = Returned a ∧
    errorOf a
    = Some (errors.Errorf "unable to create event type: exists").
Proof.
  refine (@operations_return_errors exampleJson World
            (asRaw (@clientHandler exampleJson
                                   (steadyRemote 409 "detail=exists")))
            (fst plainAPI) (InvokeCreate (Some exampleEventType))
            (exampleWorld plainAPI) _ _).
  - discriminate.
  - intros Hn. vm_compute in Hn. discriminate Hn.
Defined.




(** * The backoff object across calls *)

(** ** Two EventAPIs *)

(** X5.  Two [EventAPI]s made one after the other with the [Retry] flag
    on never share their exponential backoff object: the second one gets
    an object at another address, and making it leaves the object of the
    first as it was. *)
Theorem NewEventAPI_twice_distinct `{Defaults} (cl1 cl2 : Client)
        (o1 o2 : option loc) (h : heap) :
  let first := NewEventAPI cl1 o1 h in
  let second := NewEventAPI cl2 o2 (snd first) in
  Retry (optionsAt h o1) = true →
  Retry (optionsAt (snd first) o2) = true →
  (∃ back, snd first !! backOff (fst first)
           = Some (ObjBackOff (backoff.Exponential back))) ∧
  (∃ back, snd second !! backOff (fst second)
           = Some (ObjBackOff (backoff.Exponential back))) ∧
  backOff (fst second) ≠ backOff (fst first) ∧
  snd second !! backOff (fst first) = snd first !! backOff (fst first).
Proof.
  intros first second H1 H2. subst second first.
  destruct (NewEventAPI_heap cl1 o1 h) as (_ & _ & Hobj & _).
  assert (Hin : backOff (fst (NewEventAPI cl1 o1 h))
                ∈ dom (snd (NewEventAPI cl1 o1 h))).
  { apply elem_of_dom. by rewrite Hobj. }
  destruct (NewEventAPI_heap cl2 o2 (snd (NewEventAPI cl1 o1 h)))
    as (_ & Hnew & Hobj2 & Hold).
  split; [|split; [|split]].
  - rewrite Hobj. unfold policyFor. simpl. rewrite H1. eauto.
  - rewrite Hobj2. unfold policyFor. simpl. rewrite H2. eauto.
  - intros E. apply Hnew. by rewrite E.
  - by apply Hold.
Qed.

(** Two [EventAPI]s from the same options, with retries on. *)
Lemma NewEventAPI_twice_distinct_witness :
  let h : heap := {[ 1%positive := ObjEventOptions retryOptions ]} in
  let first := @NewEventAPI exampleDefaults exampleClient (Some 1%positive) h in
  let second := @NewEventAPI exampleDefaults exampleClient (Some 1%positive)
                             (snd first) in
  backOff (fst second) ≠ backOff (fst first) ∧
  snd second !! backOff (fst first) = snd first !! backOff (fst first).
Proof.
  refine (proj2 (proj2 (@NewEventAPI_twice_distinct exampleDefaults
                          exampleClient exampleClient
                          (Some 1%positive) (Some 1%positive)
                          {[ 1%positive := ObjEventOptions retryOptions ]}
                          _ _)));
    vm_compute; reflexivity.
Defined.

(** ** The countdown of a call *)








